(** * NTS tracklist extractor: a shallow embedding of [vercel_app.py]

    The definitions follow the source file top to bottom:
    - [Py]: the Python built-ins the program calls ([str.find], slicing,
      [str.strip], [str.lower], [str.title], [str.join], [in]);
    - the decoded JSON values the program walks over, the compact JSON text
      of such a value, and the grammar of JSON texts;
    - [extract_tracklist_from_html]: the anchor search and the bracket
      scanner ([scan_step] is the loop body, [scan_loop] the loop);
    - [is_unreleased_track] and the loop of [fetch_nts_tracklist]
      ([track_body], [track_loop]);
    - [create_text_output] and [create_csv] over the [csv] writer;
    - the data model of the specification ([TrackEntry]) and its
      classifier, show name and table, written from its words
      ([spec_classify], [spec_show_name], [spec_csv]);
    - the pages of the examples;
    - the routes [extract] and [download_csv].
    The properties come after the definitions.

    Modelling conventions.  A Python [str] is a [list ascii]: a text of
    characters with the codes 0 to 255.  The character tables of [Py] (white
    space, case) are Python's on these codes.  Python integers are [Z], so
    that the [-1] of [str.find] and the scan ceiling are written as in the
    source.  [json.loads] and [requests.get] are library calls: the
    functions that use them take them as section variables, and what is
    proved holds for every decoder and every page source. *)

From Stdlib Require Import ZArith Ascii String List Bool Lia.
From Stdlib Require DecimalPos.
Import ListNotations.
Local Open Scope Z_scope.

(** ** Text *)

Definition str := list ascii.

(** [txt "abc"] is the Python literal ['abc']. *)
Definition txt (s : string) : str := list_ascii_of_string s.

(** The double quote, code 34. *)
Definition dquote : ascii := "034"%char.

Definition len (s : str) : Z := Z.of_nat (length s).

Module Py.

(** [s.startswith(sub)] *)
Fixpoint startswith (sub s : str) : bool :=
  match sub, s with
  | [], _ => true
  | _ :: _, [] => false
  | a :: sub', b :: s' => Ascii.eqb a b && startswith sub' s'
  end.

(** The search loop of [str.find]: [s] is the text from index [i] on. *)
Fixpoint find_at (sub s : str) (i : Z) : Z :=
  if startswith sub s then i
  else match s with
       | [] => -1
       | _ :: s' => find_at sub s' (i + 1)
       end.

(** [s.find(sub, start)]: the lowest index [>= start] where [sub] occurs,
    [-1] when there is none.  A negative [start] counts from the end. *)
Definition find (s sub : str) (start : Z) : Z :=
  let start := if start <? 0 then Z.max (len s + start) 0 else start in
  if len s <? start then -1
  else find_at sub (skipn (Z.to_nat start) s) start.

(** [s[a:b]] for [0 <= a], [0 <= b] (the only slices the program takes). *)
Definition slice (s : str) (a b : Z) : str :=
  firstn (Z.to_nat (b - a)) (skipn (Z.to_nat a) s).

(** [sub in s] *)
Fixpoint contains (sub s : str) : bool :=
  startswith sub s ||
  match s with
  | [] => false
  | _ :: s' => contains sub s'
  end.

(** [sep.join(items)] *)
Fixpoint join (sep : str) (items : list str) : str :=
  match items with
  | [] => []
  | [x] => x
  | x :: rest => x ++ sep ++ join sep rest
  end.

Definition code (c : ascii) : Z := Z.of_nat (nat_of_ascii c).

(** [c.isspace()]: tab, LF, VT, FF, CR, the separators FS, GS, RS, US,
    the space, NEL (133) and the no-break space (160).  These are the
    characters [str.strip] takes off. *)
Definition isspace (c : ascii) : bool :=
  let n := code c in
  ((9 <=? n) && (n <=? 13)) || ((28 <=? n) && (n <=? 32))
  || (n =? 133) || (n =? 160).

(** [c.isupper()]: A to Z and the capitals from 192 to 222, without the
    multiplication sign (215). *)
Definition isupper (c : ascii) : bool :=
  let n := code c in
  ((65 <=? n) && (n <=? 90)) || ((192 <=? n) && (n <=? 214))
  || ((216 <=? n) && (n <=? 222)).

(** [c.islower()]: a to z, the ordinal indicators (170, 186), the micro
    sign (181) and the small letters from 223 to 255, without the division
    sign (247). *)
Definition islower (c : ascii) : bool :=
  let n := code c in
  ((97 <=? n) && (n <=? 122)) || (n =? 170) || (n =? 181) || (n =? 186)
  || ((223 <=? n) && (n <=? 246)) || ((248 <=? n) && (n <=? 255)).

(** A cased character: what [str.title] takes for a letter. *)
Definition iscased (c : ascii) : bool := isupper c || islower c.

(** [c.lower()] *)
Definition tolower (c : ascii) : ascii :=
  if isupper c then ascii_of_nat (nat_of_ascii c + 32) else c.

(** [c.title()]: the capital of a small letter; the sharp s (223) becomes
    [Ss].  The micro sign (181) and the y with diaeresis (255) are left as
    they are: their capitals have codes above 255, which a [str] cannot
    hold, so for these two [str.title] writes a character outside the
    model. *)
Definition totitle (c : ascii) : str :=
  let n := code c in
  if n =? 223 then txt "Ss"
  else if ((97 <=? n) && (n <=? 122)) || ((224 <=? n) && (n <=? 246))
          || ((248 <=? n) && (n <=? 254))
  then [ascii_of_nat (nat_of_ascii c - 32)]
  else [c].

(** [s.lower()] *)
Definition lower (s : str) : str := map tolower s.

Fixpoint lstrip (s : str) : str :=
  match s with
  | c :: s' => if isspace c then lstrip s' else s
  | [] => []
  end.

Definition rstrip (s : str) : str := rev (lstrip (rev s)).

(** [s.strip()] *)
Definition strip (s : str) : str := rstrip (lstrip s).

(** [s.replace(a, b)] for one-character [a] and [b]. *)
Definition replace (a b : ascii) (s : str) : str :=
  map (fun c => if Ascii.eqb c a then b else c) s.

(** The loop of [s.title()]: [previous_is_cased] says whether the
    character before was a letter. *)
Fixpoint title_from (previous_is_cased : bool) (s : str) : str :=
  match s with
  | [] => []
  | c :: s' =>
      (if previous_is_cased then [tolower c] else totitle c)
      ++ title_from (iscased c) s'
  end.

(** [s.title()] *)
Definition title (s : str) : str := title_from false s.

End Py.

(** ** Decoded JSON values

    What [json.loads] returns: [None], booleans, integers, strings, lists and
    dicts.  A dict is the list of its items in insertion order, each key once
    (the decoder keeps the last of repeated keys).  [PInt] stands for every
    JSON number: the program never computes with a number, and can observe
    of it only that it is no string, list or dict and whether it is zero. *)

#[warnings="-register-all"]
Inductive pyval : Type :=
| PNone
| PBool (b : bool)
| PInt (z : Z)
| PStr (s : str)
| PList (items : list pyval)
| PDict (items : list (str * pyval)).

(** Induction over decoded values, through the lists they nest. *)
Section PyvalInduction.

Variable P : pyval -> Prop.
Hypothesis HNone : P PNone.
Hypothesis HBool : forall b, P (PBool b).
Hypothesis HInt : forall z, P (PInt z).
Hypothesis HStr : forall s, P (PStr s).
Hypothesis HList : forall items, Forall P items -> P (PList items).
Hypothesis HDict :
  forall items, Forall (fun kv => P (snd kv)) items -> P (PDict items).

Fixpoint pyval_nested_ind (v : pyval) : P v :=
  match v with
  | PNone => HNone
  | PBool b => HBool b
  | PInt z => HInt z
  | PStr s => HStr s
  | PList items =>
      HList items
        ((fix all (l : list pyval) : Forall P l :=
            match l with
            | [] => Forall_nil _
            | x :: r => Forall_cons x (pyval_nested_ind x) (all r)
            end) items)
  | PDict items =>
      HDict items
        ((fix all (l : list (str * pyval)) : Forall (fun kv => P (snd kv)) l :=
            match l with
            | [] => Forall_nil _
            | kv :: r =>
                Forall_cons kv (pyval_nested_ind (snd kv)) (all r)
            end) items)
  end.

End PyvalInduction.

(** *** The JSON text of a value

    The compact text of a decoded value (no white space between tokens), the
    form in which the page embeds its data. *)

Fixpoint uint_digits (d : Decimal.uint) : str :=
  match d with
  | Decimal.Nil => []
  | Decimal.D0 d => "0"%char :: uint_digits d
  | Decimal.D1 d => "1"%char :: uint_digits d
  | Decimal.D2 d => "2"%char :: uint_digits d
  | Decimal.D3 d => "3"%char :: uint_digits d
  | Decimal.D4 d => "4"%char :: uint_digits d
  | Decimal.D5 d => "5"%char :: uint_digits d
  | Decimal.D6 d => "6"%char :: uint_digits d
  | Decimal.D7 d => "7"%char :: uint_digits d
  | Decimal.D8 d => "8"%char :: uint_digits d
  | Decimal.D9 d => "9"%char :: uint_digits d
  end.

Definition int_text (z : Z) : str :=
  match Z.to_int z with
  | Decimal.Pos d => uint_digits d
  | Decimal.Neg d => "-"%char :: uint_digits d
  end.

Definition hex_digit (n : nat) : ascii :=
  nth n (txt "0123456789abcdef") "0"%char.

(** A character inside a JSON string literal: the quote and the backslash
    are escaped, control characters are written [\n], [\r], [\t], [\b], [\f]
    or [\u00XX]. *)
Definition escape_char (c : ascii) : str :=
  let n := nat_of_ascii c in
  if Ascii.eqb c dquote then ["\"%char; dquote]
  else if Ascii.eqb c "\" then ["\"%char; "\"%char]
  else if Nat.eqb n 10 then txt "\n"
  else if Nat.eqb n 13 then txt "\r"
  else if Nat.eqb n 9 then txt "\t"
  else if Nat.eqb n 8 then txt "\b"
  else if Nat.eqb n 12 then txt "\f"
  else if Nat.ltb n 32 then
    txt "\u00" ++ [hex_digit (Nat.div n 16); hex_digit (Nat.modulo n 16)]
  else [c].

Definition string_text (s : str) : str :=
  dquote :: flat_map escape_char s ++ [dquote].

Fixpoint json_text (v : pyval) : str :=
  match v with
  | PNone => txt "null"
  | PBool true => txt "true"
  | PBool false => txt "false"
  | PInt z => int_text z
  | PStr s => string_text s
  | PList items =>
      "["%char :: Py.join (txt ",") (map json_text items) ++ txt "]"
  | PDict items =>
      "{"%char
        :: Py.join (txt ",")
             (map (fun kv => let '(k, v) := kv in
                             string_text k ++ ":"%char :: json_text v) items)
        ++ txt "}"
  end.

(** The body of a string literal as the scanner reads it: ordinary
    characters, and backslash pairs. *)
Inductive string_body : str -> Prop :=
| sb_nil : string_body []
| sb_char c b :
    c <> dquote -> c <> "\"%char -> string_body b -> string_body (c :: b)
| sb_escape c b :
    string_body b -> string_body ("\"%char :: c :: b).

(** *** JSON texts

    The texts of JSON values, with white space where the grammar allows it.
    Numbers are taken as non-empty runs of the characters a number is
    written with, and string bodies as [string_body] has them: the grammar
    holds every JSON text, which is all the scanner's verdict depends on. *)

Definition is_ws (c : ascii) : bool :=
  Ascii.eqb c " " || Ascii.eqb c "009" || Ascii.eqb c "010"
  || Ascii.eqb c "013".

Definition is_number_char (c : ascii) : bool :=
  existsb (Ascii.eqb c) (txt "0123456789-+.eE").

Definition whitespace (w : str) : Prop := forallb is_ws w = true.

Definition number_text (n : str) : Prop :=
  n <> [] /\ forallb is_number_char n = true.

Inductive json_value : str -> Prop :=
| json_null : json_value (txt "null")
| json_true : json_value (txt "true")
| json_false : json_value (txt "false")
| json_number n : number_text n -> json_value n
| json_string b : string_body b -> json_value (dquote :: b ++ [dquote])
| json_array_empty w :
    whitespace w -> json_value ("["%char :: w ++ txt "]")
| json_array es :
    json_elements es -> json_value ("["%char :: es ++ txt "]")
| json_object_empty w :
    whitespace w -> json_value ("{"%char :: w ++ txt "}")
| json_object ms :
    json_members ms -> json_value ("{"%char :: ms ++ txt "}")

with json_elements : str -> Prop :=
| json_elements_last w1 v w2 :
    whitespace w1 -> json_value v -> whitespace w2 ->
    json_elements (w1 ++ v ++ w2)
| json_elements_more w1 v w2 es :
    whitespace w1 -> json_value v -> whitespace w2 -> json_elements es ->
    json_elements (w1 ++ v ++ w2 ++ ","%char :: es)

with json_members : str -> Prop :=
| json_members_last w1 k w2 w3 v w4 :
    whitespace w1 -> string_body k -> whitespace w2 ->
    whitespace w3 -> json_value v -> whitespace w4 ->
    json_members
      (w1 ++ (dquote :: k ++ [dquote]) ++ w2 ++ ":"%char :: w3 ++ v ++ w4)
| json_members_more w1 k w2 w3 v w4 ms :
    whitespace w1 -> string_body k -> whitespace w2 ->
    whitespace w3 -> json_value v -> whitespace w4 -> json_members ms ->
    json_members
      (w1 ++ (dquote :: k ++ [dquote]) ++ w2 ++ ":"%char :: w3 ++ v ++ w4
       ++ ","%char :: ms).

Scheme json_value_mut := Minimality for json_value Sort Prop
  with json_elements_mut := Minimality for json_elements Sort Prop
  with json_members_mut := Minimality for json_members Sort Prop.

Combined Scheme json_mutual_ind
  from json_value_mut, json_elements_mut, json_members_mut.

(** The text of a JSON array. *)
Definition json_array_text (a : str) : Prop :=
  json_value a /\ exists t, a = "["%char :: t.

(** ** Exceptions

    The loop of [fetch_nts_tracklist] calls methods on decoded values; on a
    value of the wrong type Python raises.  [json.loads] raises
    [JSONDecodeError] on a text that is no JSON, and may raise other
    exceptions ([RecursionError] on deep nesting, [ValueError] on a number
    of too many digits).  [result] is the outcome of a computation that may
    raise. *)

Inductive exn : Type :=
| AttributeError
| TypeError
| KeyError
| RequestException
| JSONDecodeError
| RecursionError
| ValueError.

Inductive result (A : Type) : Type :=
| OK (a : A)
| Raise (e : exn).

Arguments OK {A} a.
Arguments Raise {A} e.

Definition bind {A B : Type} (r : result A) (k : A -> result B) : result B :=
  match r with
  | OK a => k a
  | Raise e => Raise e
  end.

Notation "x <- r ;; k" := (bind r (fun x => k))
  (at level 61, r at next level, right associativity).

Fixpoint mapM {A B : Type} (f : A -> result B) (l : list A) : result (list B) :=
  match l with
  | [] => OK []
  | a :: rest => b <- f a ;; bs <- mapM f rest ;; OK (b :: bs)
  end.

(** ** The locator: [extract_tracklist_from_html] *)

(** The key in front of the array, ['"tracklist":']. *)
Definition TRACKLIST_KEY : str :=
  dquote :: txt "tracklist" ++ dquote :: txt ":".

(** The anchor ['"tracklist":[{']: the key and the first two characters of
    the array. *)
Definition ANCHOR : str := TRACKLIST_KEY ++ txt "[{".

(** The scan ceiling, in characters past [json_start]. *)
Definition SCAN_CEILING : Z := 500000.

(** The three loop variables of the scan. *)
Record scan_state : Type := mk_scan {
  bracket_count : Z;
  in_string : bool;
  escape_next : bool
}.

Definition scan_init : scan_state := mk_scan 0 false false.

(** One pass through the loop body either goes on with the next character
    or reaches the [return] at the closing bracket. *)
Inductive step_result : Type :=
| Continue (st : scan_state)
| Closed.

Definition is_open (c : ascii) : bool := Ascii.eqb c "[" || Ascii.eqb c "{".
Definition is_close (c : ascii) : bool := Ascii.eqb c "]" || Ascii.eqb c "}".

(** The body of the [for] loop, lines 31 to 59, in the order of the source. *)
Definition scan_step (st : scan_state) (char : ascii) : step_result :=
  if escape_next st then
    Continue (mk_scan (bracket_count st) (in_string st) false)
  else if Ascii.eqb char "\" then
    Continue (mk_scan (bracket_count st) (in_string st) true)
  else if Ascii.eqb char dquote && negb (escape_next st) then
    Continue (mk_scan (bracket_count st) (negb (in_string st)) (escape_next st))
  else if negb (in_string st) then
    let bracket_count' :=
      if is_open char then bracket_count st + 1
      else if is_close char then bracket_count st - 1
      else bracket_count st in
    if (bracket_count' =? 0) && Ascii.eqb char "]" then Closed
    else Continue (mk_scan bracket_count' (in_string st) (escape_next st))
  else Continue st.

(** The [for i in range(json_start, stop)] loop: [chars] is [html[i:]].
    The result is [json_end] when the loop returns from inside, [None] when
    the range is exhausted. *)
Fixpoint scan_loop (chars : str) (i stop : Z) (st : scan_state) : option Z :=
  match chars with
  | [] => None
  | char :: rest =>
      if i <? stop then
        match scan_step st char with
        | Closed => Some (i + 1)
        | Continue st' => scan_loop rest (i + 1) stop st'
        end
      else None
  end.

(** Lines 20 to 53 up to the slice: the span [(json_start, json_end)] the
    scanner settles on, [None] for both ways of falling through. *)
Definition locate (html : str) : option (Z * Z) :=
  let tracklist_start := Py.find html ANCHOR 0 in
  if tracklist_start =? -1 then None
  else
    let json_start := Py.find html (txt "[") tracklist_start in
    match scan_loop (skipn (Z.to_nat json_start) html) json_start
            (Z.min (json_start + SCAN_CEILING) (len html)) scan_init with
    | Some json_end => Some (json_start, json_end)
    | None => None
    end.

Section Locator.

(** [json.loads]: the decoded value, or the exception raised. *)
Variable json_loads : str -> result pyval.

(** Lines 55 to 58: the [try] around [json.loads] catches
    [json.JSONDecodeError] and nothing else. *)
Definition try_loads (json_str : str) : result (option pyval) :=
  match json_loads json_str with
  | OK v => OK (Some v)
  | Raise JSONDecodeError => OK None
  | Raise e => Raise e
  end.

Definition extract_tracklist_from_html (html : str)
    : result (option pyval) :=
  match locate html with
  | None => OK None
  | Some (json_start, json_end) =>
      let json_str := Py.slice html json_start json_end in
      try_loads json_str
  end.

End Locator.

(** The loop body run over a stretch of characters: the state after the
    stretch, [None] when the loop returned inside it. *)
Fixpoint scan_run (chars : str) (st : scan_state) : option scan_state :=
  match chars with
  | [] => Some st
  | char :: rest =>
      match scan_step st char with
      | Closed => None
      | Continue st' => scan_run rest st'
      end
  end.

(** The scanner passes over [s]: started outside a string at a depth of one
    or more (inside the array), it reads [s] without returning and ends in
    the state it began in. *)
Definition passes (s : str) : Prop :=
  forall d, 1 <= d ->
  scan_run s (mk_scan d false false) = Some (mk_scan d false false).

(** Characters with no meaning for the scanner outside a string. *)
Definition is_plain (c : ascii) : bool :=
  negb (Ascii.eqb c dquote) && negb (Ascii.eqb c "\")
  && negb (is_open c) && negb (is_close c).

(** ** Operations on decoded values *)

Definition str_eqb (a b : str) : bool :=
  if list_eq_dec ascii_dec a b then true else false.

(** The item of a dict under a key. *)
Fixpoint dict_lookup (items : list (str * pyval)) (key : str) : option pyval :=
  match items with
  | [] => None
  | (k, v) :: rest => if str_eqb k key then Some v else dict_lookup rest key
  end.

(** [v.get(key, default)]: only a dict has [get]. *)
Definition py_get (v : pyval) (key : str) (default : pyval) : result pyval :=
  match v with
  | PDict items =>
      OK (match dict_lookup items key with Some x => x | None => default end)
  | _ => Raise AttributeError
  end.

(** [v[key]] for a string [key]. *)
Definition py_getitem (v : pyval) (key : str) : result pyval :=
  match v with
  | PDict items =>
      match dict_lookup items key with
      | Some x => OK x
      | None => Raise KeyError
      end
  | _ => Raise TypeError
  end.

(** [v.strip()]: only a string has [strip]. *)
Definition py_strip (v : pyval) : result str :=
  match v with
  | PStr s => OK (Py.strip s)
  | _ => Raise AttributeError
  end.

(** The items [for x in v] goes through: the elements of a list, the
    characters of a string, the keys of a dict. *)
Definition py_iter (v : pyval) : result (list pyval) :=
  match v with
  | PList items => OK items
  | PStr s => OK (map (fun c => PStr [c]) s)
  | PDict items => OK (map (fun kv => PStr (fst kv)) items)
  | _ => Raise TypeError
  end.

(** [sep.join(items)] on values: every item must be a string. *)
Fixpoint py_strings (items : list pyval) : result (list str) :=
  match items with
  | [] => OK []
  | PStr s :: rest => ss <- py_strings rest ;; OK (s :: ss)
  | _ :: _ => Raise TypeError
  end.

Definition py_join (sep : str) (items : list pyval) : result str :=
  ss <- py_strings items ;; OK (Py.join sep ss).

(** [bool(v)] *)
Definition truthy (v : pyval) : bool :=
  match v with
  | PNone => false
  | PBool b => b
  | PInt z => negb (z =? 0)
  | PStr [] => false
  | PStr (_ :: _) => true
  | PList [] => false
  | PList (_ :: _) => true
  | PDict [] => false
  | PDict (_ :: _) => true
  end.

(** ** The release filter: [is_unreleased_track] *)

Definition unreleased_keywords : list str :=
  [ txt "unreleased";
    txt "forthcoming";
    txt "tbc";
    txt "tba";
    txt "to be announced";
    txt "id - id";
    txt "unknown" ].

Definition is_unreleased_track (title : str) : bool :=
  match title with
  | [] => true
  | _ :: _ =>
      let title_lower := Py.lower title in
      existsb (fun keyword => Py.contains keyword title_lower)
        unreleased_keywords
  end.

(** A keyword that neither starts nor ends with white space: [strip]
    leaves its occurrences alone. *)
Definition trim_stable (kw : str) : bool :=
  match kw with
  | [] => false
  | k :: _ => negb (Py.isspace k) && negb (Py.isspace (last kw k))
  end.

(** ** The result of an extraction *)

(** One item of [formatted_tracks]. *)
Record ClassifiedTrack : Type := mk_track {
  formatted_line : str;
  title : str;
  artist : str
}.

(** The dict [fetch_nts_tracklist] returns. *)
Record TracklistResult : Type := mk_result {
  show_name : str;
  url : str;
  track_count : Z;
  tracks : list ClassifiedTrack
}.

(** ** The show name, lines 96 and 97 *)

(** The longest prefix without a slash, and what follows it. *)
Fixpoint span_not_slash (s : str) : str * str :=
  match s with
  | [] => ([], [])
  | c :: s' =>
      if Ascii.eqb c "/" then ([], s)
      else let '(seg, rest) := span_not_slash s' in (c :: seg, rest)
  end.

(** [/shows/([^/]+)/] matched at the head of [s]: group 1.  The class is
    greedy; a shorter segment would be followed by a character of the class,
    never by the slash, so there is nothing to backtrack into. *)
Definition match_shows (s : str) : option str :=
  if Py.startswith (txt "/shows/") s then
    match span_not_slash (skipn 7 s) with
    | ((_ :: _) as seg, _ :: _) => Some seg
    | _ => None
    end
  else None.

(** [re.search(r'/shows/([^/]+)/', url)]: group 1 of the leftmost match. *)
Fixpoint re_search_shows (url : str) : option str :=
  match match_shows url with
  | Some seg => Some seg
  | None =>
      match url with
      | [] => None
      | _ :: rest => re_search_shows rest
      end
  end.

Definition show_name_of (url : str) : str :=
  match re_search_shows url with
  | Some group1 => Py.title (Py.replace "-" " " group1)
  | None => txt "NTS Show"
  end.

(** ** The loop over the tracklist, lines 100 to 130 *)

(** [[a['name'] for a in v]] *)
Definition names_of (v : pyval) : result (list pyval) :=
  items <- py_iter v ;; mapM (fun a => py_getitem a (txt "name")) items.

Definition is_empty {A : Type} (l : list A) : bool :=
  match l with
  | [] => true
  | _ :: _ => false
  end.

(** The loop body for one [track]: [None] is [continue], [Some t] is the
    item appended to [formatted_tracks]. *)
Definition track_body (track : pyval) : result (option ClassifiedTrack) :=
  t <- py_get track (txt "title") (PStr []) ;;
  title <- py_strip t ;;
  if is_unreleased_track title then OK None
  else
    ma <- py_get track (txt "mainArtists") (PList []) ;;
    main_artists <- names_of ma ;;
    fa <- py_get track (txt "featuringArtists") (PList []) ;;
    featuring <- names_of fa ;;
    ra <- py_get track (txt "remixArtists") (PList []) ;;
    remix <- names_of ra ;;
    if is_empty main_artists then OK None
    else
      artist_str <- py_join (txt ", ") main_artists ;;
      artist_str <-
        (if is_empty featuring then OK artist_str
         else ft <- py_join (txt ", ") featuring ;;
              OK (artist_str ++ txt " ft. " ++ ft)) ;;
      title <-
        (if is_empty remix then OK title
         else rx <- py_join (txt ", ") remix ;;
              OK (title ++ txt " (" ++ rx ++ txt " Remix)")) ;;
      let formatted_line := title ++ txt " - " ++ artist_str in
      OK (Some (mk_track formatted_line title artist_str)).

(** The [for track in tracklist] loop, threading [formatted_tracks]. *)
Fixpoint track_loop (tracklist : list pyval)
    (formatted_tracks : list ClassifiedTrack)
    : result (list ClassifiedTrack) :=
  match tracklist with
  | [] => OK formatted_tracks
  | track :: rest =>
      r <- track_body track ;;
      match r with
      | None => track_loop rest formatted_tracks
      | Some t => track_loop rest (formatted_tracks ++ [t])
      end
  end.

Section Fetch.

(** [requests.get(url, headers=...)] with [raise_for_status()]: the body of
    the page, or the exception raised. *)
Variable requests_get : str -> result str.

Variable json_loads : str -> result pyval.

(** [None] is the [return None] of line 93. *)
Definition fetch_nts_tracklist (url : str) : result (option TracklistResult) :=
  text <- requests_get url ;;
  found <- extract_tracklist_from_html json_loads text ;;
  match found with
  | None => OK None
  | Some tracklist =>
      if negb (truthy tracklist) then OK None
      else
        let show_name := show_name_of url in
        items <- py_iter tracklist ;;
        formatted_tracks <- track_loop items [] ;;
        OK (Some (mk_result show_name url (Z.of_nat (length formatted_tracks))
                    formatted_tracks))
  end.

End Fetch.

(** ** Output: [create_text_output] and [create_csv] *)

Definition LF : ascii := "010"%char.
Definition CR : ascii := "013"%char.

Definition create_text_output (data : TracklistResult) : str :=
  let lines :=
    fold_left (fun lines track => lines ++ [formatted_line track])
      (tracks data) [] in
  Py.join [LF] lines.

(** The [csv] writer with its default dialect ([excel]): comma, double
    quote, minimal quoting, quotes doubled, rows ended by CR LF. *)
Module Csv.

Definition delimiter : ascii := ","%char.
Definition quotechar : ascii := dquote.
Definition lineterminator : str := [CR; LF].

(** Minimal quoting: a field is quoted when it holds the delimiter, the
    quote character or a character of the line terminator. *)
Definition special (c : ascii) : bool :=
  Ascii.eqb c delimiter || Ascii.eqb c quotechar
  || existsb (Ascii.eqb c) lineterminator.

Definition needs_quotes (field : str) : bool := existsb special field.

Definition double_quotes (field : str) : str :=
  flat_map (fun c => if Ascii.eqb c quotechar then [quotechar; quotechar]
                     else [c]) field.

Definition field_text (field : str) : str :=
  if needs_quotes field then quotechar :: double_quotes field ++ [quotechar]
  else field.

(** [writer.writerow(fields)]: the text written.  A row made of one empty
    field is written as a pair of quotes. *)
Definition writerow (fields : list str) : str :=
  let record := Py.join [delimiter] (map field_text fields) in
  match fields, record with
  | [_], [] => [quotechar; quotechar] ++ lineterminator
  | _, _ => record ++ lineterminator
  end.

End Csv.

(** The contents of the [StringIO] that [create_csv] returns. *)
Definition create_csv (data : TracklistResult) : str :=
  let output := [] in
  let output := output ++ Csv.writerow [txt "Song"; txt "Artist"] in
  fold_left
    (fun output track =>
       output ++ Csv.writerow [title track; artist track])
    (tracks data) output.

(** ** The data model of the specification

    A decoded entry as the specification describes it: a title and the
    names of its contributors by role. *)

Record TrackEntry : Type := mk_entry {
  entry_title : str;
  entry_main : list str;
  entry_featuring : list str;
  entry_remix : list str
}.

(** [o] is a contributor object with name [n]. *)
Definition name_object (o : pyval) (n : str) : Prop :=
  exists fields, o = PDict fields /\
                 dict_lookup fields (txt "name") = Some (PStr n).

(** The role [key] of the dict [fields] lists [names]; a missing role is the
    empty list. *)
Definition role_names (fields : list (str * pyval)) (key : str)
    (names : list str) : Prop :=
  match dict_lookup fields key with
  | None => names = []
  | Some v => exists objs, v = PList objs /\ Forall2 name_object objs names
  end.

(** The decoded value [v] is the track entry [e]; a missing title is the
    empty title. *)
Definition decodes_to (v : pyval) (e : TrackEntry) : Prop :=
  exists fields,
    v = PDict fields /\
    match dict_lookup fields (txt "title") with
    | None => entry_title e = []
    | Some t => t = PStr (entry_title e)
    end /\
    role_names fields (txt "mainArtists") (entry_main e) /\
    role_names fields (txt "featuringArtists") (entry_featuring e) /\
    role_names fields (txt "remixArtists") (entry_remix e).

(** *** The classifier in the words of the specification

    The definitions from here to [spec_csv] are written from the
    specification, with tables and recursions of their own: they share
    nothing with [Py], [Csv] and the loop of [fetch_nts_tracklist], with
    which the theorems compare them. *)

(** The keyword set of the release filter, as the specification lists it. *)
Definition RELEASE_KEYWORDS : list str :=
  [ txt "unreleased"; txt "forthcoming"; txt "tbc"; txt "tba";
    txt "to be announced"; txt "id - id"; txt "unknown" ].

(** White space: the codes 9 to 13, 28 to 32, 133 and 160. *)
Definition WHITE_SPACE : list ascii :=
  map ascii_of_nat [9; 10; 11; 12; 13; 28; 29; 30; 31; 32; 133; 160]%nat.

Definition is_white (c : ascii) : bool := existsb (Ascii.eqb c) WHITE_SPACE.

(** Trimming: the white space before the first and after the last
    character that is no white space is dropped. *)
Fixpoint trim_front (s : str) : str :=
  match s with
  | [] => []
  | c :: rest => if is_white c then trim_front rest else s
  end.

Fixpoint trim_back (s : str) : str :=
  match s with
  | [] => []
  | c :: rest =>
      match trim_back rest with
      | [] => if is_white c then [] else [c]
      | kept => c :: kept
      end
  end.

Definition spec_trim (s : str) : str := trim_back (trim_front s).

(** A text with no white space at either end. *)
Definition no_white_ends (t : str) : Prop :=
  match t with
  | [] => True
  | c :: _ => is_white c = false /\ is_white (last t c) = false
  end.

(** The small letters a to z. *)
Definition SMALL_LETTERS : str := txt "abcdefghijklmnopqrstuvwxyz".

(** [c] is the character [k] of a keyword, whatever its case: [k] itself,
    or the capital of the small letter [k]. *)
Definition same_letter (c k : ascii) : bool :=
  Ascii.eqb c k
  || (existsb (Ascii.eqb k) SMALL_LETTERS
      && Nat.eqb (nat_of_ascii c + 32) (nat_of_ascii k)).

(** A text written with the characters of the keywords: small letters,
    the space and the hyphen. *)
Definition keyword_text (kw : str) : Prop :=
  forallb (fun k => existsb (Ascii.eqb k) (SMALL_LETTERS ++ txt " -")) kw
  = true.

(** The keyword stands at the head of the text, whatever the case. *)
Fixpoint reads_keyword (kw s : str) : bool :=
  match kw, s with
  | [], _ => true
  | _ :: _, [] => false
  | k :: kw', c :: s' => same_letter c k && reads_keyword kw' s'
  end.

(** The keyword stands somewhere in the text, whatever the case. *)
Fixpoint holds_keyword (kw s : str) : bool :=
  reads_keyword kw s
  || match s with
     | [] => false
     | _ :: s' => holds_keyword kw s'
     end.

(** The specification's release filter and contributor check: the entry is
    discarded when its trimmed title is empty, or holds a keyword whatever
    the case, or when it has no main contributor. *)
Definition spec_discards (e : TrackEntry) : bool :=
  let t := spec_trim (entry_title e) in
  match t with [] => true | _ :: _ => false end
  || existsb (fun kw => holds_keyword kw t) RELEASE_KEYWORDS
  || match entry_main e with [] => true | _ :: _ => false end.

(** Names joined with a comma and a space. *)
Definition comma_joined (names : list str) : str :=
  match names with
  | [] => []
  | n :: rest => n ++ flat_map (fun m => txt ", " ++ m) rest
  end.

(** The specification's artist string, title and display line. *)
Definition spec_artist (e : TrackEntry) : str :=
  comma_joined (entry_main e)
  ++ match entry_featuring e with
     | [] => []
     | _ :: _ => txt " ft. " ++ comma_joined (entry_featuring e)
     end.

Definition spec_title (e : TrackEntry) : str :=
  spec_trim (entry_title e)
  ++ match entry_remix e with
     | [] => []
     | _ :: _ => txt " (" ++ comma_joined (entry_remix e) ++ txt " Remix)"
     end.

Definition spec_track (e : TrackEntry) : ClassifiedTrack :=
  mk_track (spec_title e ++ txt " - " ++ spec_artist e)
    (spec_title e) (spec_artist e).

(** The specification's classifier: the surviving entries, in input order. *)
Definition spec_classify (entries : list TrackEntry) : list ClassifiedTrack :=
  map spec_track (filter (fun e => negb (spec_discards e)) entries).

(** *** The show name in the words of the specification *)








(** *** The table in the words of the specification *)

(** The characters that make a field need quotes: the delimiter, the
    quote and the line breaks. *)
Definition CSV_SPECIAL : list ascii := [","%char; dquote; CR; LF].

Definition must_quote (field : str) : bool :=
  existsb (fun c => existsb (Ascii.eqb c) CSV_SPECIAL) field.

(** A field between quotes, from behind the opening quote on: every quote
    of the field is written twice, and a quote closes the field. *)
Fixpoint quoted_from (field : str) : str :=
  match field with
  | [] => [dquote]
  | c :: rest =>
      if Ascii.eqb c dquote then dquote :: dquote :: quoted_from rest
      else c :: quoted_from rest
  end.

Definition spec_field (field : str) : str :=
  if must_quote field then dquote :: quoted_from field else field.

(** A row of two fields, and the table of a result: the header row, then
    the row of each track. *)
Definition spec_row (a b : str) : str :=
  spec_field a ++ ","%char :: spec_field b ++ [CR; LF].

Definition spec_csv (data : TracklistResult) : str :=
  spec_row (txt "Song") (txt "Artist")
  ++ flat_map (fun t => spec_row (title t) (artist t)) (tracks data).

(** ** Pages used in the examples *)

(** An array whose text is longer than the scan ceiling: one entry with a
    title of [SCAN_CEILING] letters. *)
Definition long_title : str := repeat "a"%char (Z.to_nat SCAN_CEILING).

Definition long_array : list pyval :=
  [PDict [(txt "title", PStr long_title)]].

Definition long_page : str := TRACKLIST_KEY ++ json_text (PList long_array).

(** The title [Song [Live] "Remix"] and the body of its JSON literal. *)
Definition live_title : str :=
  txt "Song [Live] " ++ dquote :: txt "Remix" ++ [dquote].

Definition live_body : str :=
  txt "Song [Live] \" ++ dquote :: txt "Remix\" ++ [dquote].

Definition live_array : list pyval :=
  [PDict [(txt "title", PStr live_title)]].

Definition live_page : str :=
  txt "<script>{" ++ TRACKLIST_KEY ++ json_text (PList live_array)
  ++ txt "}</script>".

(** A page whose bracketed span is not JSON. *)
Definition bad_page : str := TRACKLIST_KEY ++ txt "[{}x]".

(** The two entries of the end-to-end scenario, and a page around them. *)
Definition sample_array : list pyval :=
  [ PDict [ (txt "title", PStr (txt "X"));
            (txt "mainArtists", PList [PDict [(txt "name", PStr (txt "Y"))]]) ];
    PDict [ (txt "title", PStr (txt "Unreleased Thing"));
            (txt "mainArtists", PList [PDict [(txt "name", PStr (txt "Z"))]]) ] ].

Definition sample_pre : str := txt "<script>window.data={".
Definition sample_post : str := txt "};</script>".

Definition sample_page : str :=
  sample_pre ++ TRACKLIST_KEY ++ json_text (PList sample_array) ++ sample_post.

(** The entry [Waves] by [A], featuring [B], remixed by [C]. *)
Definition waves_entry : TrackEntry :=
  mk_entry (txt "Waves") [txt "A"] [txt "B"] [txt "C"].

Definition waves_value : pyval :=
  PDict [ (txt "title", PStr (txt "Waves"));
          (txt "mainArtists", PList [PDict [(txt "name", PStr (txt "A"))]]);
          (txt "featuringArtists",
           PList [PDict [(txt "name", PStr (txt "B"))]]);
          (txt "remixArtists", PList [PDict [(txt "name", PStr (txt "C"))]]) ].

(** An entry with white space around its title (a space and a no-break
    space before, a NEL after) and two names in every role. *)
Definition night_title : str :=
  " "%char :: "160"%char :: txt "Night Drive" ++ ["133"%char].

Definition night_value : pyval :=
  PDict [ (txt "title", PStr night_title);
          (txt "mainArtists",
           PList [PDict [(txt "name", PStr (txt "A"))];
                  PDict [(txt "name", PStr (txt "B"))]]);
          (txt "featuringArtists",
           PList [PDict [(txt "name", PStr (txt "C"))];
                  PDict [(txt "name", PStr (txt "D"))]]);
          (txt "remixArtists",
           PList [PDict [(txt "name", PStr (txt "E"))];
                  PDict [(txt "name", PStr (txt "F"))]]) ].

Definition night_entry : TrackEntry :=
  mk_entry night_title [txt "A"; txt "B"] [txt "C"; txt "D"]
    [txt "E"; txt "F"].

(** Five entries: one kept after trimming, one held back by a keyword in
    capitals, one without a main contributor, one whose title is white
    space only, one kept as it is. *)
Definition mixed_array : list pyval :=
  [ night_value;
    PDict [ (txt "title", PStr (txt "Track TBC"));
            (txt "mainArtists", PList [PDict [(txt "name", PStr (txt "Z"))]]) ];
    PDict [ (txt "title", PStr (txt "Intro")) ];
    PDict [ (txt "title", PStr [" "%char; "160"%char]);
            (txt "mainArtists", PList [PDict [(txt "name", PStr (txt "Q"))]]) ];
    PDict [ (txt "title", PStr (txt "X"));
            (txt "mainArtists", PList [PDict [(txt "name", PStr (txt "Y"))]]) ] ].

Definition mixed_entries : list TrackEntry :=
  [ night_entry;
    mk_entry (txt "Track TBC") [txt "Z"] [] [];
    mk_entry (txt "Intro") [] [] [];
    mk_entry [" "%char; "160"%char] [txt "Q"] [] [];
    mk_entry (txt "X") [txt "Y"] [] [] ].

(** A result whose fields hold a quote, a comma and a line feed. *)
Definition quoted_result : TracklistResult :=
  mk_result (txt "Show") (txt "u") 1
    [ mk_track (txt "line")
        (txt "Say " ++ dquote :: txt "Hi" ++ dquote :: txt ", Bye")
        (txt "A" ++ LF :: txt "B") ].

(** An entry whose only main contributor has the empty name. *)
Definition nameless_value : pyval :=
  PDict [ (txt "title", PStr (txt "X"));
          (txt "mainArtists", PList [PDict [(txt "name", PStr [])]]) ].

(** [url] holds [/shows/<seg>/] right after [pre], with [seg] a non-empty
    segment without a slash: a match of the pattern of line 96. *)
Definition shows_match (url pre seg post : str) : Prop :=
  url = pre ++ txt "/shows/" ++ seg ++ "/"%char :: post /\
  seg <> [] /\ ~ In "/"%char seg.

(** An episode address, and an address without a show segment. *)
Definition episode_url : str :=
  txt "https://www.nts.live/shows/floating-points/episodes/1st-january-2020".

Definition latest_url : str := txt "https://www.nts.live/latest".

(** A page on which every entry is discarded: the first by the release
    filter, the second for want of a main contributor. *)
Definition discarded_array : list pyval :=
  [ PDict [ (txt "title", PStr (txt "Forthcoming on XL"));
            (txt "mainArtists", PList [PDict [(txt "name", PStr (txt "Z"))]]) ];
    PDict [ (txt "title", PStr (txt "Intro")) ] ].

Definition discarded_entries : list TrackEntry :=
  [ mk_entry (txt "Forthcoming on XL") [txt "Z"] [] [];
    mk_entry (txt "Intro") [] [] [] ].

Definition discarded_page : str :=
  sample_pre ++ TRACKLIST_KEY ++ json_text (PList discarded_array)
  ++ sample_post.

(** A page without the anchor, and an array written with white space. *)
Definition plain_page : str := txt "<html><body>no data</body></html>".

Definition spaced_array : str :=
  txt "[{" ++ dquote :: txt "a" ++ dquote :: txt " : [1, 2]} , null ]".

(** ** The routes: [extract] and [download_csv]

    A route reads the JSON of the request ([request.json], a decoded value)
    and answers with a response.  [jsonify] and [send_file] build the
    response; a response is kept as what was passed to them. *)

Inductive response : Type :=
| JsonError (status : Z) (error : str)
| JsonData (data : TracklistResult) (text_output : str)
| CsvFile (download_name : str) (content : str).

(** [key in v] for a string [key]: a key of a dict, an element of a list,
    a substring of a string. *)
Definition py_contains_key (v : pyval) (key : str) : result bool :=
  match v with
  | PDict items =>
      OK (match dict_lookup items key with Some _ => true | None => false end)
  | PList items =>
      OK (existsb (fun x => match x with
                            | PStr s => str_eqb s key
                            | _ => false
                            end) items)
  | PStr s => OK (Py.contains key s)
  | _ => Raise TypeError
  end.

(** [v.replace(a, b)]: only a string has [replace]. *)
Definition py_replace (v : pyval) (a b : ascii) : result str :=
  match v with
  | PStr s => OK (Py.replace a b s)
  | _ => Raise AttributeError
  end.

Section Routes.

Variable requests_get : str -> result str.
Variable json_loads : str -> result pyval.

(** [str(e)] for a caught exception. *)
Variable exn_str : exn -> str.

(** [str(v)] for a value that is neither a string nor [None]. *)
Variable py_str : pyval -> str.

(** [datetime.now().strftime('%Y%m%d')] *)
Variable today : str.

(** The route [/api/extract], lines 174 to 198.  The checks of the address
    stand before the [try]: what they raise is not caught. *)
Definition extract (request_json : pyval) : result response :=
  u <- py_get request_json (txt "url") (PStr []) ;;
  url <- py_strip u ;;
  if is_empty url then OK (JsonError 400 (txt "Please provide a URL"))
  else if negb (Py.contains (txt "nts.live") url) then
    OK (JsonError 400 (txt "Please provide a valid NTS.live URL"))
  else
    match fetch_nts_tracklist requests_get json_loads url with
    | OK None => OK (JsonError 404 (txt "No tracklist found on this page"))
    | OK (Some data) => OK (JsonData data (create_text_output data))
    | Raise RequestException =>
        OK (JsonError 500
              (txt "Failed to fetch URL: " ++ exn_str RequestException))
    | Raise e => OK (JsonError 500 (txt "Unexpected error: " ++ exn_str e))
    end.

(** What the [csv] writer makes of a field: a string as it is, [None] as
    the empty field, anything else through [str]. *)
Definition csv_field (v : pyval) : str :=
  match v with
  | PStr s => s
  | PNone => []
  | _ => py_str v
  end.

(** The loop of [create_csv] over the tracks of the request. *)
Fixpoint csv_rows (items : list pyval) (output : str) : result str :=
  match items with
  | [] => OK output
  | track :: rest =>
      t <- py_getitem track (txt "title") ;;
      a <- py_getitem track (txt "artist") ;;
      csv_rows rest (output ++ Csv.writerow [csv_field t; csv_field a])
  end.

(** [create_csv] as [download_csv] calls it, on the JSON of the request. *)
Definition create_csv_value (data : pyval) : result str :=
  let output := [] ++ Csv.writerow [txt "Song"; txt "Artist"] in
  tr <- py_getitem data (txt "tracks") ;;
  items <- py_iter tr ;;
  csv_rows items output.

(** The route [/api/download_csv], lines 202 to 225. *)
Definition download_csv (request_json : pyval) : result response :=
  let data := request_json in
  missing <-
    (if negb (truthy data) then OK true
     else has <- py_contains_key data (txt "tracks") ;; OK (negb has)) ;;
  if missing then OK (JsonError 400 (txt "No tracklist data provided"))
  else
    csv_file <- create_csv_value data ;;
    sn <- py_get data (txt "show_name") (PStr (txt "nts_show")) ;;
    show_name <- py_replace sn " " "_" ;;
    let timestamp := today in
    let filename := show_name ++ txt "_" ++ timestamp ++ txt ".csv" in
    OK (CsvFile filename csv_file).

End Routes.

(** The JSON [jsonify] writes for a result, as [request.json] reads it back
    when the client posts it to [download_csv]. *)
Definition track_value (t : ClassifiedTrack) : pyval :=
  PDict [ (txt "formatted_line", PStr (formatted_line t));
          (txt "title", PStr (title t));
          (txt "artist", PStr (artist t)) ].

Definition result_value (data : TracklistResult) (text_output : str) : pyval :=
  PDict [ (txt "show_name", PStr (show_name data));
          (txt "url", PStr (url data));
          (txt "track_count", PInt (track_count data));
          (txt "tracks", PList (map track_value (tracks data)));
          (txt "text_output", PStr text_output) ].

(** Reading a field back from the text of a row: the field, and what
    follows it. *)
Fixpoint read_quoted (s : str) : option (str * str) :=
  match s with
  | [] => None
  | c :: rest =>
      if Ascii.eqb c Csv.quotechar then
        match rest with
        | q :: rest' =>
            if Ascii.eqb q Csv.quotechar then
              match read_quoted rest' with
              | Some (f, r) => Some (Csv.quotechar :: f, r)
              | None => None
              end
            else Some ([], rest)
        | [] => Some ([], [])
        end
      else
        match read_quoted rest with
        | Some (f, r) => Some (c :: f, r)
        | None => None
        end
  end.

Fixpoint read_plain (s : str) : str * str :=
  match s with
  | [] => ([], [])
  | c :: rest =>
      if Csv.special c then ([], s)
      else let '(f, r) := read_plain rest in (c :: f, r)
  end.

Definition read_field (s : str) : option (str * str) :=
  match s with
  | c :: rest =>
      if Ascii.eqb c Csv.quotechar then read_quoted rest
      else Some (read_plain s)
  | [] => Some ([], [])
  end.

(** The row [create_csv] writes for a track. *)
Definition csv_row (t : ClassifiedTrack) : str :=
  Csv.writerow [title t; artist t].

(** A tracklist with an entry that is no dict. *)
Definition broken_array : list pyval :=
  [ PDict [ (txt "title", PStr (txt "X"));
            (txt "mainArtists", PList [PDict [(txt "name", PStr (txt "Y"))]]) ];
    PInt 3 ].

(** [s.split(sep)] for a separator of one character: reading the lines
    of a text back. *)
Fixpoint split_on (sep : ascii) (s : str) : list str :=
  match s with
  | [] => [[]]
  | c :: rest =>
      if Ascii.eqb c sep then [] :: split_on sep rest
      else
        match split_on sep rest with
        | line :: lines => (c :: line) :: lines
        | [] => [[c]]
        end
  end.


(** * Properties *)

(** ** Text lemmas *)

Lemma len_nil : len [] = 0.
Proof. reflexivity. Qed.

Lemma len_cons (c : ascii) (s : str) : len (c :: s) = 1 + len s.
Proof. unfold len. cbn [length]. lia. Qed.

Lemma len_app (s t : str) : len (s ++ t) = len s + len t.
Proof. unfold len. rewrite length_app. lia. Qed.

Lemma len_nonneg (s : str) : 0 <= len s.
Proof. unfold len. lia. Qed.

Lemma skipn_len_app (s t : str) : skipn (Z.to_nat (len s)) (s ++ t) = t.
Proof.
  unfold len. rewrite Nat2Z.id, skipn_app, Nat.sub_diag, skipn_all.
  reflexivity.
Qed.

Lemma firstn_len_app (s t : str) : firstn (Z.to_nat (len s)) (s ++ t) = s.
Proof.
  unfold len. rewrite Nat2Z.id, firstn_app, Nat.sub_diag, firstn_all.
  cbn [firstn]. apply app_nil_r.
Qed.

Lemma slice_middle (pre mid post : str) :
  Py.slice (pre ++ mid ++ post) (len pre) (len pre + len mid) = mid.
Proof.
  unfold Py.slice. rewrite skipn_len_app.
  replace (len pre + len mid - len pre) with (len mid) by lia.
  apply firstn_len_app.
Qed.

(** ** The scanner *)

Lemma scan_run_app (a b : str) (st : scan_state) :
  scan_run (a ++ b) st =
  match scan_run a st with
  | Some st' => scan_run b st'
  | None => None
  end.
Proof.
  revert st. induction a as [|c a IH]; intros st; cbn [scan_run app].
  - reflexivity.
  - destruct (scan_step st c); [apply IH | reflexivity].
Qed.

(** A stretch that does not close and fits below the stop is skipped. *)
Lemma scan_loop_run (p rest : str) (i stop : Z) (st st' : scan_state) :
  scan_run p st = Some st' ->
  i + len p <= stop ->
  scan_loop (p ++ rest) i stop st = scan_loop rest (i + len p) stop st'.
Proof.
  revert i st. induction p as [|c p IH]; intros i st Hrun Hfit.
  - cbn in Hrun. injection Hrun as <-. cbn [app]. rewrite len_nil.
    f_equal. lia.
  - cbn [scan_run] in Hrun. cbn [app scan_loop].
    rewrite len_cons in Hfit. pose proof (len_nonneg p).
    destruct (Z.ltb_spec i stop); [|lia].
    destruct (scan_step st c) as [st1|]; [|discriminate].
    rewrite (IH (i + 1) st1 Hrun) by lia.
    rewrite len_cons. f_equal. lia.
Qed.

(** A stretch that does not close and reaches the stop exhausts the loop. *)
Lemma scan_loop_exhausted (p rest : str) (i stop : Z) (st st' : scan_state) :
  scan_run p st = Some st' ->
  stop <= i + len p ->
  scan_loop (p ++ rest) i stop st = None.
Proof.
  revert i st. induction p as [|c p IH]; intros i st Hrun Hfit.
  - rewrite len_nil in Hfit. cbn [app]. destruct rest as [|c r]; cbn [scan_loop].
    + reflexivity.
    + destruct (Z.ltb_spec i stop); [lia | reflexivity].
  - cbn [scan_run] in Hrun. cbn [app scan_loop].
    rewrite len_cons in Hfit.
    destruct (Z.ltb_spec i stop); [|reflexivity].
    destruct (scan_step st c) as [st1|]; [|discriminate].
    apply (IH (i + 1) st1 Hrun). lia.
Qed.

(** *** The loop body, case by case, in the order of its tests *)

Lemma step_escaped (st : scan_state) (c : ascii) :
  escape_next st = true ->
  scan_step st c = Continue (mk_scan (bracket_count st) (in_string st) false).
Proof. intros H. unfold scan_step. rewrite H. reflexivity. Qed.

Lemma step_backslash (st : scan_state) :
  escape_next st = false ->
  scan_step st "\"%char =
  Continue (mk_scan (bracket_count st) (in_string st) true).
Proof. intros H. unfold scan_step. rewrite H. reflexivity. Qed.

Lemma step_quote (st : scan_state) :
  escape_next st = false ->
  scan_step st dquote =
  Continue (mk_scan (bracket_count st) (negb (in_string st)) false).
Proof. intros H. unfold scan_step. rewrite H. reflexivity. Qed.

Lemma step_in_string (d : Z) (c : ascii) :
  c <> dquote -> c <> "\"%char ->
  scan_step (mk_scan d true false) c = Continue (mk_scan d true false).
Proof.
  intros Hq Hb. unfold scan_step. cbn [escape_next in_string bracket_count].
  apply Ascii.eqb_neq in Hq, Hb. rewrite Hq, Hb. reflexivity.
Qed.

Lemma is_plain_spec (c : ascii) :
  is_plain c = true ->
  Ascii.eqb c dquote = false /\ Ascii.eqb c "\" = false /\
  is_open c = false /\ is_close c = false /\ Ascii.eqb c "]" = false.
Proof.
  unfold is_plain. intros H.
  repeat (apply andb_true_iff in H; destruct H as [H ?]).
  repeat match goal with
         | h : negb _ = true |- _ => apply negb_true_iff in h
         end.
  repeat split; try assumption.
  unfold is_close in *. apply orb_false_iff in H0. tauto.
Qed.

Lemma step_plain (d : Z) (c : ascii) :
  is_plain c = true ->
  scan_step (mk_scan d false false) c = Continue (mk_scan d false false).
Proof.
  intros H. destruct (is_plain_spec c H) as (Hq & Hb & Ho & Hc & Hr).
  unfold scan_step. cbn [escape_next in_string bracket_count negb].
  rewrite Hq, Hb, Ho, Hc, Hr, andb_false_r. reflexivity.
Qed.

(** Inside a string no character changes the depth or ends the scan. *)
Lemma step_in_string_depth (st : scan_state) (c : ascii) :
  in_string st = true ->
  exists st', scan_step st c = Continue st' /\
              bracket_count st' = bracket_count st.
Proof.
  intros Hin. unfold scan_step. rewrite Hin.
  destruct (escape_next st); [eauto|].
  destruct (Ascii.eqb c "\"); [eauto|].
  destruct (Ascii.eqb c dquote); cbn; eauto.
Qed.

Lemma scan_run_plain (s : str) (d : Z) :
  forallb is_plain s = true ->
  scan_run s (mk_scan d false false) = Some (mk_scan d false false).
Proof.
  induction s as [|c s IH]; cbn [forallb scan_run]; intros H.
  - reflexivity.
  - apply andb_true_iff in H as [Hc Hs]. rewrite (step_plain d c Hc).
    exact (IH Hs).
Qed.

Lemma scan_run_body (b : str) (d : Z) :
  string_body b ->
  scan_run b (mk_scan d true false) = Some (mk_scan d true false).
Proof.
  induction 1 as [|c b Hq Hb _ IH|c b _ IH]; cbn [scan_run].
  - reflexivity.
  - rewrite (step_in_string d c Hq Hb). exact IH.
  - rewrite step_backslash by reflexivity. cbn [bracket_count in_string].
    rewrite step_escaped by reflexivity. exact IH.
Qed.

(** A whole string literal leaves the scanner where it was. *)
Lemma scan_run_literal (b : str) (d : Z) :
  string_body b ->
  scan_run (dquote :: b ++ [dquote]) (mk_scan d false false) =
  Some (mk_scan d false false).
Proof.
  intros Hb. cbn [scan_run]. rewrite step_quote by reflexivity.
  cbn [bracket_count in_string negb]. rewrite scan_run_app, (scan_run_body b d Hb).
  cbn [scan_run]. rewrite step_quote by reflexivity. reflexivity.
Qed.

(** Every prefix of a string body keeps the scanner in the string, at the
    same depth. *)
Lemma scan_run_body_prefix (b : str) (d : Z) (k : nat) :
  string_body b ->
  exists e, scan_run (firstn k b) (mk_scan d true false) =
            Some (mk_scan d true e).
Proof.
  intros Hb. revert k.
  induction Hb as [|c b Hq Hbs _ IH|c b _ IH]; intros k.
  - rewrite firstn_nil. exists false. reflexivity.
  - destruct k as [|k]; cbn [firstn scan_run]; [exists false; reflexivity|].
    rewrite (step_in_string d c Hq Hbs). apply IH.
  - destruct k as [|[|k]]; cbn [firstn scan_run].
    + exists false. reflexivity.
    + rewrite step_backslash by reflexivity. exists true. reflexivity.
    + rewrite step_backslash by reflexivity. cbn [bracket_count in_string].
      rewrite step_escaped by reflexivity. apply IH.
Qed.

Lemma step_open_square (d : Z) :
  scan_step (mk_scan d false false) "["%char =
  Continue (mk_scan (d + 1) false false).
Proof. unfold scan_step. cbn. rewrite andb_false_r. reflexivity. Qed.

Lemma step_open_curly (d : Z) :
  scan_step (mk_scan d false false) "{"%char =
  Continue (mk_scan (d + 1) false false).
Proof. unfold scan_step. cbn. rewrite andb_false_r. reflexivity. Qed.

Lemma step_close_curly (d : Z) :
  scan_step (mk_scan d false false) "}"%char =
  Continue (mk_scan (d - 1) false false).
Proof. unfold scan_step. cbn. rewrite andb_false_r. reflexivity. Qed.

Lemma step_close_square (d : Z) :
  scan_step (mk_scan d false false) "]"%char =
  if d - 1 =? 0 then Closed else Continue (mk_scan (d - 1) false false).
Proof. unfold scan_step. cbn. rewrite andb_true_r. reflexivity. Qed.

(** *** Well-formed JSON text under the scanner *)

Lemma string_body_app (a b : str) :
  string_body a -> string_body b -> string_body (a ++ b).
Proof.
  induction 1; intros Hb; cbn [app]; [assumption| |].
  - apply sb_char; auto.
  - apply sb_escape; auto.
Qed.

Lemma escape_char_body (c : ascii) : string_body (escape_char c).
Proof.
  destruct c as [[] [] [] [] [] [] [] []]; cbv;
    repeat first
      [ apply sb_nil
      | apply sb_escape
      | apply sb_char; [discriminate | discriminate | ] ].
Qed.

Lemma escaped_body (s : str) : string_body (flat_map escape_char s).
Proof.
  induction s as [|c s IH]; cbn [flat_map].
  - apply sb_nil.
  - apply string_body_app; [apply escape_char_body | exact IH].
Qed.

Lemma uint_digits_number (u : Decimal.uint) :
  forallb is_number_char (uint_digits u) = true.
Proof. induction u; cbn [uint_digits forallb]; try rewrite IHu; reflexivity. Qed.

Lemma uint_digits_nonempty (u : Decimal.uint) :
  u <> Decimal.Nil -> uint_digits u <> [].
Proof. destruct u; cbn [uint_digits]; congruence. Qed.

Lemma int_text_number (z : Z) : number_text (int_text z).
Proof.
  unfold number_text, int_text. destruct z as [|p|p]; cbn [Z.to_int].
  - split; [discriminate | reflexivity].
  - split; [|apply uint_digits_number].
    apply uint_digits_nonempty, DecimalPos.Unsigned.to_uint_nonnil.
  - split; [discriminate|]. cbn [forallb]. rewrite uint_digits_number.
    reflexivity.
Qed.

Lemma is_ws_plain (c : ascii) : is_ws c = true -> is_plain c = true.
Proof.
  destruct c as [[] [] [] [] [] [] [] []]; vm_compute; intros H;
    first [reflexivity | discriminate H].
Qed.

Lemma is_number_char_plain (c : ascii) :
  is_number_char c = true -> is_plain c = true.
Proof.
  destruct c as [[] [] [] [] [] [] [] []]; vm_compute; intros H;
    first [reflexivity | discriminate H].
Qed.

Lemma forallb_plain (ok : ascii -> bool) (s : str) :
  (forall c, ok c = true -> is_plain c = true) ->
  forallb ok s = true -> forallb is_plain s = true.
Proof.
  intros Hok. induction s as [|c s IH]; cbn [forallb]; [reflexivity|].
  intros H. apply andb_true_iff in H as [Hc Hs].
  rewrite (Hok c Hc), (IH Hs). reflexivity.
Qed.

(** *** Texts the scanner passes over *)

Lemma passes_nil : passes [].
Proof. intros d _. reflexivity. Qed.

Lemma passes_app (a b : str) : passes a -> passes b -> passes (a ++ b).
Proof.
  intros Ha Hb d Hd. rewrite scan_run_app, (Ha d Hd). exact (Hb d Hd).
Qed.

Lemma passes_plain (s : str) : forallb is_plain s = true -> passes s.
Proof. intros H d _. exact (scan_run_plain s d H). Qed.

Lemma passes_ws (w : str) : whitespace w -> passes w.
Proof. intros H. exact (passes_plain w (forallb_plain is_ws w is_ws_plain H)). Qed.

Lemma passes_number (n : str) : number_text n -> passes n.
Proof.
  intros [_ H].
  exact (passes_plain n (forallb_plain is_number_char n is_number_char_plain H)).
Qed.

Lemma passes_literal (b : str) :
  string_body b -> passes (dquote :: b ++ [dquote]).
Proof. intros H d _. exact (scan_run_literal b d H). Qed.

Lemma passes_square (inner : str) :
  passes inner -> passes ("["%char :: inner ++ txt "]").
Proof.
  intros H d Hd. cbn [scan_run].
  rewrite step_open_square, scan_run_app, (H (d + 1)) by lia.
  cbn [txt list_ascii_of_string scan_run]. rewrite step_close_square.
  replace (d + 1 - 1) with d by lia.
  destruct (Z.eqb_spec d 0); [lia | reflexivity].
Qed.

Lemma passes_curly (inner : str) :
  passes inner -> passes ("{"%char :: inner ++ txt "}").
Proof.
  intros H d Hd. cbn [scan_run].
  rewrite step_open_curly, scan_run_app, (H (d + 1)) by lia.
  cbn [txt list_ascii_of_string scan_run]. rewrite step_close_curly.
  replace (d + 1 - 1) with d by lia. reflexivity.
Qed.

Lemma passes_comma (s : str) : passes s -> passes (","%char :: s).
Proof.
  intros H. change (","%char :: s) with (txt "," ++ s).
  apply passes_app; [apply passes_plain; reflexivity | exact H].
Qed.

Lemma passes_colon (s : str) : passes s -> passes (":"%char :: s).
Proof.
  intros H. change (":"%char :: s) with (txt ":" ++ s).
  apply passes_app; [apply passes_plain; reflexivity | exact H].
Qed.

Create HintDb passes.

#[local] Hint Resolve passes_nil passes_app passes_ws passes_number
  passes_literal passes_square passes_curly passes_comma passes_colon
  : passes.

(** Inside the array the scanner passes over every JSON text. *)
Lemma json_passes :
  (forall v, json_value v -> passes v) /\
  (forall es, json_elements es -> passes es) /\
  (forall ms, json_members ms -> passes ms).
Proof.
  apply json_mutual_ind; intros; auto 12 with passes;
    apply passes_plain; reflexivity.
Qed.

(** *** The compact text of a value is a JSON text *)

Lemma whitespace_nil : whitespace [].
Proof. reflexivity. Qed.

Lemma elements_join (items : list str) :
  items <> [] -> Forall json_value items ->
  json_elements (Py.join (txt ",") items).
Proof.
  intros Hne Hall. induction Hall as [|x rest Hx Hrest IH]; [congruence|].
  cbn [Py.join]. destruct rest as [|y rest].
  - rewrite <- (app_nil_r x).
    exact (json_elements_last [] x [] whitespace_nil Hx whitespace_nil).
  - apply (json_elements_more [] x [] _ whitespace_nil Hx whitespace_nil).
    apply IH. discriminate.
Qed.

Lemma members_join (items : list (str * str)) :
  items <> [] ->
  Forall (fun kv => json_value (snd kv)) items ->
  json_members
    (Py.join (txt ",")
       (map (fun kv => string_text (fst kv) ++ ":"%char :: snd kv) items)).
Proof.
  intros Hne Hall. induction Hall as [|[k v] rest Hv Hrest IH]; [congruence|].
  cbn [map Py.join fst snd] in *. destruct rest as [|y rest].
  - cbn [map]. rewrite <- (app_nil_r v).
    exact (json_members_last [] _ [] [] v [] whitespace_nil (escaped_body k)
             whitespace_nil whitespace_nil Hv whitespace_nil).
  - cbn [map] in *. rewrite <- app_assoc. cbn [app].
    apply (json_members_more [] _ [] [] v [] _ whitespace_nil
             (escaped_body k) whitespace_nil whitespace_nil Hv whitespace_nil).
    apply IH. discriminate.
Qed.

Lemma json_text_value (v : pyval) : json_value (json_text v).
Proof.
  induction v as [|b|z|s|items IH|items IH] using pyval_nested_ind;
    cbn [json_text].
  - apply json_null.
  - destruct b; [apply json_true | apply json_false].
  - apply json_number, int_text_number.
  - apply json_string, escaped_body.
  - destruct items as [|x items].
    + exact (json_array_empty [] whitespace_nil).
    + apply json_array, elements_join; [discriminate|].
      apply Forall_map. exact IH.
  - destruct items as [|x items].
    + exact (json_object_empty [] whitespace_nil).
    + apply json_object.
      replace (map (fun kv => let '(k, v) := kv in
                              string_text k ++ ":"%char :: json_text v)
                 (x :: items))
        with (map (fun kv => string_text (fst kv) ++ ":"%char :: snd kv)
                (map (fun kv => (fst kv, json_text (snd kv))) (x :: items))).
      * apply members_join; [discriminate|].
        apply Forall_map. exact IH.
      * rewrite map_map. apply map_ext. intros [k w]. reflexivity.
Qed.

Lemma json_text_array (items : list pyval) :
  json_array_text (json_text (PList items)).
Proof.
  split; [apply json_text_value|]. cbn [json_text]. eauto.
Qed.

(** The inside of an array text is passed over. *)
Lemma array_inner (a : str) :
  json_array_text a ->
  exists inner, a = "["%char :: inner ++ txt "]" /\ passes inner.
Proof.
  intros [Hv [t ->]]. inversion Hv as [| | |n [_ Hn]|b| w Hw| es Hes| |];
    subst.
  - cbn [forallb] in Hn. discriminate Hn.
  - exists w. split; [reflexivity | exact (passes_ws w Hw)].
  - exists es. split; [reflexivity | exact (proj1 (proj2 json_passes) es Hes)].
Qed.

(** *** The anchor search *)

Lemma find_from_prefix (pre rest sub : str) :
  Py.find (pre ++ rest) sub (len pre) = Py.find_at sub rest (len pre).
Proof.
  unfold Py.find. pose proof (len_nonneg pre). pose proof (len_nonneg rest).
  destruct (Z.ltb_spec (len pre) 0); [lia|].
  rewrite len_app. destruct (Z.ltb_spec (len pre + len rest) (len pre)); [lia|].
  rewrite skipn_len_app. reflexivity.
Qed.

(** The first bracket at or after the anchor is the one that opens the array. *)
Lemma find_bracket_after_key (t : str) (i : Z) :
  Py.find_at (txt "[") (TRACKLIST_KEY ++ "["%char :: t) i =
  i + len TRACKLIST_KEY.
Proof. cbn. lia. Qed.

(** *** The scan over an embedded array *)

Lemma scan_loop_array (a post : str) (i stop : Z) :
  json_array_text a ->
  i + len a <= stop ->
  scan_loop (a ++ post) i stop scan_init = Some (i + len a).
Proof.
  intros Ha Hfit. destruct (array_inner a Ha) as (inner & -> & Hin).
  change ("["%char :: inner ++ txt "]") with (("["%char :: inner) ++ txt "]")
    in *.
  rewrite len_app in *. change (len (txt "]")) with 1 in *.
  rewrite <- app_assoc.
  rewrite (scan_loop_run ("["%char :: inner) _ i stop scan_init
             (mk_scan 1 false false)).
  - cbn [txt list_ascii_of_string app scan_loop].
    destruct (Z.ltb_spec (i + len ("["%char :: inner)) stop); [|lia].
    rewrite step_close_square. change (1 - 1 =? 0) with true. cbv iota.
    f_equal. lia.
  - cbn [scan_run]. unfold scan_init. rewrite step_open_square.
    apply Hin. lia.
  - lia.
Qed.

(** ** Occurrences of a text in a text *)

Lemma startswith_app (sub t : str) : Py.startswith sub (sub ++ t) = true.
Proof.
  induction sub as [|c sub IH]; [reflexivity|].
  cbn [app Py.startswith]. rewrite Ascii.eqb_refl. exact IH.
Qed.

Lemma startswith_inv (sub s : str) :
  Py.startswith sub s = true -> exists t, s = sub ++ t.
Proof.
  revert s. induction sub as [|c sub IH]; intros s H.
  - exists s. reflexivity.
  - destruct s as [|b s]; [discriminate H|]. cbn [Py.startswith] in H.
    apply andb_true_iff in H as [Hc Hs]. apply Ascii.eqb_eq in Hc as ->.
    destruct (IH s Hs) as [t ->]. exists t. reflexivity.
Qed.

(** ** Substrings and trimming *)

Lemma contains_eq (sub s : str) :
  Py.contains sub s =
  Py.startswith sub s ||
  match s with
  | [] => false
  | _ :: s' => Py.contains sub s'
  end.
Proof. destruct s; reflexivity. Qed.

(** [sub in s] holds exactly when [s] splits around an occurrence of [sub]. *)
Lemma contains_spec (sub s : str) :
  Py.contains sub s = true <-> exists p t, s = p ++ sub ++ t.
Proof.
  split.
  - induction s as [|c s IH]; rewrite contains_eq; intros H;
      apply orb_true_iff in H as [H|H].
    + apply startswith_inv in H as [t ->]. exists [], t. reflexivity.
    + discriminate H.
    + apply startswith_inv in H as [t ->]. exists [], t. reflexivity.
    + destruct (IH H) as (p & t & ->). exists (c :: p), t. reflexivity.
  - intros (p & t & ->). induction p as [|c p IH]; rewrite contains_eq.
    + cbn [app]. rewrite startswith_app. reflexivity.
    + cbn [app]. fold (p ++ sub ++ t). rewrite IH. apply orb_true_r.
Qed.

Lemma isspace_tolower (c : ascii) :
  Py.isspace (Py.tolower c) = Py.isspace c.
Proof.
  destruct c as [[] [] [] [] [] [] [] []]; vm_compute; reflexivity.
Qed.

Lemma lower_app (s t : str) : Py.lower (s ++ t) = Py.lower s ++ Py.lower t.
Proof. apply map_app. Qed.

(** [lstrip] takes a run of white space off the front. *)
Lemma lstrip_split (s : str) :
  exists w, s = w ++ Py.lstrip s /\ forallb Py.isspace w = true.
Proof.
  induction s as [|c s (w & Hs & Hw)]; [exists []; split; reflexivity|].
  cbn [Py.lstrip]. destruct (Py.isspace c) eqn:Hc.
  - exists (c :: w). cbn [app forallb]. rewrite Hc, Hw, <- Hs.
    split; reflexivity.
  - exists []. split; reflexivity.
Qed.

Lemma rstrip_split (s : str) :
  exists w, s = Py.rstrip s ++ w /\ forallb Py.isspace w = true.
Proof.
  unfold Py.rstrip. destruct (lstrip_split (rev s)) as (w & Hs & Hw).
  exists (rev w). split.
  - rewrite <- rev_app_distr, <- Hs, rev_involutive. reflexivity.
  - rewrite forallb_forall in *. intros c Hc. apply Hw, in_rev. exact Hc.
Qed.

Lemma strip_split (s : str) :
  exists w1 w2, s = w1 ++ Py.strip s ++ w2 /\
                forallb Py.isspace w1 = true /\ forallb Py.isspace w2 = true.
Proof.
  destruct (lstrip_split s) as (w1 & H1 & Hw1).
  destruct (rstrip_split (Py.lstrip s)) as (w2 & H2 & Hw2).
  exists w1, w2. unfold Py.strip. rewrite <- H2, <- H1. auto.
Qed.

(** An occurrence of a word that neither starts nor ends with white space
    does not reach into white space around the text. *)
Lemma occurrence_skips_front (kw w s : str) :
  forallb Py.isspace w = true ->
  (exists k kw', kw = k :: kw' /\ Py.isspace k = false) ->
  (exists p t, w ++ s = p ++ kw ++ t) -> exists p t, s = p ++ kw ++ t.
Proof.
  intros Hw (k & kw' & -> & Hk). induction w as [|c w IH]; [auto|].
  cbn [forallb] in Hw. apply andb_true_iff in Hw as [Hc Hw].
  intros (p & t & Heq). apply (IH Hw). destruct p as [|b p].
  - cbn [app] in Heq. injection Heq as -> _. congruence.
  - cbn [app] in Heq. injection Heq as _ Heq. eauto.
Qed.

Lemma occurrence_skips_back (kw w s : str) :
  forallb Py.isspace w = true ->
  (exists k kw', kw = kw' ++ [k] /\ Py.isspace k = false) ->
  (exists p t, s ++ w = p ++ kw ++ t) -> exists p t, s = p ++ kw ++ t.
Proof.
  intros Hw (k & kw' & -> & Hk). induction w as [|c w IH] using rev_ind;
    [rewrite app_nil_r; auto|].
  rewrite forallb_app in Hw. apply andb_true_iff in Hw as [Hw Hc].
  cbn [forallb] in Hc. rewrite andb_true_r in Hc.
  intros (p & t & Heq). apply (IH Hw).
  destruct t as [|b t] using rev_ind.
  - rewrite app_nil_r, !app_assoc in Heq.
    apply app_inj_tail in Heq as [_ ->]. congruence.
  - clear IHt. rewrite !app_assoc in Heq. apply app_inj_tail in Heq as [Heq _].
    exists p, t. rewrite Heq, <- !app_assoc. reflexivity.
Qed.

Lemma trim_stable_front (kw : str) :
  trim_stable kw = true ->
  exists k kw', kw = k :: kw' /\ Py.isspace k = false.
Proof.
  destruct kw as [|k kw']; [discriminate|]. cbn [trim_stable]. intros H.
  apply andb_true_iff in H as [H _]. apply negb_true_iff in H. eauto.
Qed.

Lemma trim_stable_back (kw : str) :
  trim_stable kw = true ->
  exists k kw', kw = kw' ++ [k] /\ Py.isspace k = false.
Proof.
  destruct kw as [|k kw']; [discriminate|]. cbn [trim_stable]. intros H.
  apply andb_true_iff in H as [_ H]. apply negb_true_iff in H.
  exists (last (k :: kw') k), (removelast (k :: kw')).
  split; [apply app_removelast_last; discriminate | exact H].
Qed.

Lemma lower_keeps_space (w : str) :
  forallb Py.isspace w = true -> forallb Py.isspace (Py.lower w) = true.
Proof.
  induction w as [|c w IH]; [reflexivity|]. cbn [forallb Py.lower map].
  intros H. apply andb_true_iff in H as [Hc Hw].
  rewrite isspace_tolower, Hc. exact (IH Hw).
Qed.

(** Trimming the title does not change the verdict of a keyword. *)
Lemma keyword_trim (kw t : str) :
  trim_stable kw = true ->
  Py.contains kw (Py.lower (Py.strip t)) = Py.contains kw (Py.lower t).
Proof.
  intros Hkw. destruct (strip_split t) as (w1 & w2 & Ht & Hw1 & Hw2).
  apply lower_keeps_space in Hw1, Hw2.
  replace (Py.lower t)
    with (Py.lower w1 ++ Py.lower (Py.strip t) ++ Py.lower w2)
    by (rewrite <- !lower_app, <- Ht; reflexivity).
  apply eq_true_iff_eq. rewrite !contains_spec. split.
  - intros (p & r & ->). exists (Py.lower w1 ++ p), (r ++ Py.lower w2).
    rewrite <- !app_assoc. reflexivity.
  - intros H. apply (occurrence_skips_front kw _ _ Hw1) in H;
      [|exact (trim_stable_front kw Hkw)].
    exact (occurrence_skips_back kw _ _ Hw2 (trim_stable_back kw Hkw) H).
Qed.

(** ** The words of the specification and the built-ins *)

Lemma is_white_isspace (c : ascii) : is_white c = Py.isspace c.
Proof.
  destruct c as [[] [] [] [] [] [] [] []]; vm_compute; reflexivity.
Qed.

Lemma trim_front_lstrip (s : str) : trim_front s = Py.lstrip s.
Proof.
  induction s as [|c s IH]; [reflexivity|].
  cbn [trim_front Py.lstrip]. rewrite is_white_isspace, IH. reflexivity.
Qed.

Lemma lstrip_snoc (s : str) (c : ascii) :
  Py.lstrip (s ++ [c]) =
  match Py.lstrip s with
  | [] => if Py.isspace c then [] else [c]
  | kept => kept ++ [c]
  end.
Proof.
  induction s as [|a s IH]; [reflexivity|].
  cbn [app Py.lstrip]. destruct (Py.isspace a); [exact IH | reflexivity].
Qed.

Lemma trim_back_rstrip (s : str) : trim_back s = Py.rstrip s.
Proof.
  unfold Py.rstrip. induction s as [|c s IH]; [reflexivity|].
  cbn [trim_back rev]. rewrite IH, lstrip_snoc, is_white_isspace.
  destruct (Py.lstrip (rev s)) as [|a kept]; cbn [rev].
  - destruct (Py.isspace c); reflexivity.
  - rewrite rev_app_distr. cbn [rev app].
    destruct (rev kept ++ [a]) eqn:E; [|reflexivity].
    destruct (rev kept); discriminate E.
Qed.

Lemma spec_trim_strip (s : str) : spec_trim s = Py.strip s.
Proof.
  unfold spec_trim, Py.strip. rewrite trim_front_lstrip. apply trim_back_rstrip.
Qed.

(** Trimming, said without a recursion: of white space, a text without
    white space at its ends, and white space, the text is kept. *)
Lemma trim_front_white (l s : str) :
  forallb is_white l = true -> trim_front (l ++ s) = trim_front s.
Proof.
  induction l as [|c l IH]; [reflexivity|]. cbn [forallb app trim_front].
  intros H. apply andb_true_iff in H as [Hc Hl]. rewrite Hc. exact (IH Hl).
Qed.

Lemma trim_back_white (r : str) :
  forallb is_white r = true -> trim_back r = [].
Proof.
  induction r as [|c r IH]; [reflexivity|]. cbn [forallb trim_back].
  intros H. apply andb_true_iff in H as [Hc Hr]. rewrite (IH Hr), Hc.
  reflexivity.
Qed.

Lemma trim_back_keeps (t r : str) (c : ascii) :
  is_white (last t c) = false -> t <> [] ->
  forallb is_white r = true -> trim_back (t ++ r) = t.
Proof.
  intros Hlast Hne Hr. induction t as [|a t IH]; [contradiction|].
  cbn [app trim_back]. destruct t as [|b t].
  - cbn [app last] in *. rewrite (trim_back_white r Hr), Hlast. reflexivity.
  - rewrite IH; [reflexivity | exact Hlast | discriminate].
Qed.

Lemma spec_trim_parts (l t r : str) :
  forallb is_white l = true -> forallb is_white r = true ->
  no_white_ends t -> spec_trim (l ++ t ++ r) = t.
Proof.
  intros Hl Hr Ht. unfold spec_trim. rewrite (trim_front_white l _ Hl).
  destruct t as [|c t].
  - cbn [app]. clear Hl. induction r as [|a r IH]; [reflexivity|].
    cbn [forallb] in Hr. apply andb_true_iff in Hr as [Ha Hr'].
    cbn [trim_front]. rewrite Ha. exact (IH Hr').
  - destruct Ht as [Hfirst Hlast]. cbn [app trim_front]. rewrite Hfirst.
    exact (trim_back_keeps (c :: t) r c Hlast ltac:(discriminate) Hr).
Qed.

Lemma same_letter_lower (c k : ascii) :
  existsb (Ascii.eqb k) (SMALL_LETTERS ++ txt " -") = true ->
  same_letter c k = Ascii.eqb k (Py.tolower c).
Proof.
  intros Hk. apply existsb_exists in Hk as (k' & Hin & Hk').
  apply Ascii.eqb_eq in Hk'. subst k'.
  assert (H : forallb
                (fun k => Bool.eqb (same_letter c k)
                            (Ascii.eqb k (Py.tolower c)))
                (SMALL_LETTERS ++ txt " -") = true).
  { destruct c as [[] [] [] [] [] [] [] []]; vm_compute; reflexivity. }
  rewrite forallb_forall in H. apply Bool.eqb_prop. exact (H k Hin).
Qed.

Lemma reads_keyword_lower (kw s : str) :
  keyword_text kw -> reads_keyword kw s = Py.startswith kw (Py.lower s).
Proof.
  unfold keyword_text. revert s.
  induction kw as [|k kw IH]; intros s H; [reflexivity|].
  cbn [forallb] in H. apply andb_true_iff in H as [Hk Hkw].
  destruct s as [|c s]; [reflexivity|].
  cbn [reads_keyword Py.lower map Py.startswith].
  rewrite (same_letter_lower c k Hk). f_equal. exact (IH s Hkw).
Qed.

Lemma holds_keyword_lower (kw s : str) :
  keyword_text kw -> holds_keyword kw s = Py.contains kw (Py.lower s).
Proof.
  intros H. induction s as [|c s IH].
  - cbn [holds_keyword Py.contains Py.lower map].
    rewrite (reads_keyword_lower kw [] H). reflexivity.
  - cbn [holds_keyword]. rewrite contains_eq, (reads_keyword_lower kw _ H), IH.
    reflexivity.
Qed.

Lemma release_keywords_text : Forall keyword_text RELEASE_KEYWORDS.
Proof. repeat constructor. Qed.

Lemma holds_release_keyword (t : str) :
  existsb (fun kw => holds_keyword kw t) RELEASE_KEYWORDS =
  existsb (fun kw => Py.contains kw (Py.lower t)) RELEASE_KEYWORDS.
Proof.
  pose proof release_keywords_text as Hall.
  induction RELEASE_KEYWORDS as [|kw kws IH]; [reflexivity|].
  inversion Hall as [|? ? Hkw Hkws]; subst. cbn [existsb].
  rewrite (holds_keyword_lower kw t Hkw), (IH Hkws). reflexivity.
Qed.

Lemma comma_joined_join (names : list str) :
  comma_joined names = Py.join (txt ", ") names.
Proof.
  destruct names as [|n rest]; [reflexivity|]. cbn [comma_joined].
  revert n. induction rest as [|m rest IH]; intros n.
  - cbn [flat_map Py.join]. apply app_nil_r.
  - cbn [flat_map]. change (Py.join (txt ", ") (n :: m :: rest))
      with (n ++ txt ", " ++ Py.join (txt ", ") (m :: rest)).
    rewrite <- (IH m), <- app_assoc. reflexivity.
Qed.

(** ** The classifier *)

Lemma is_unreleased_track_spec (t : str) :
  is_unreleased_track t =
  is_empty t || existsb (fun kw => Py.contains kw (Py.lower t)) RELEASE_KEYWORDS.
Proof. destruct t; reflexivity. Qed.

(** The verdict of the specification's filter is the one of the two tests
    of the loop body. *)
Lemma spec_discards_tests (e : TrackEntry) :
  spec_discards e =
  is_unreleased_track (Py.strip (entry_title e)) || is_empty (entry_main e).
Proof.
  unfold spec_discards. rewrite is_unreleased_track_spec, spec_trim_strip.
  rewrite holds_release_keyword.
  destruct (Py.strip (entry_title e)), (entry_main e); reflexivity.
Qed.

Lemma mapM_names (objs : list pyval) (names : list str) :
  Forall2 name_object objs names ->
  mapM (fun a => py_getitem a (txt "name")) objs = OK (map PStr names).
Proof.
  induction 1 as [|o n objs names (fields & -> & Hn) _ IH]; [reflexivity|].
  cbn [mapM py_getitem map]. rewrite Hn. cbn [bind]. rewrite IH. reflexivity.
Qed.

Lemma names_of_role (fields : list (str * pyval)) (key : str)
    (names : list str) :
  role_names fields key names ->
  bind (py_get (PDict fields) key (PList [])) names_of = OK (map PStr names).
Proof.
  unfold role_names, py_get. cbn [bind].
  destruct (dict_lookup fields key) as [v|].
  - intros (objs & -> & Hobjs). unfold names_of. cbn [py_iter bind].
    exact (mapM_names objs names Hobjs).
  - intros ->. reflexivity.
Qed.

Lemma py_strings_map (names : list str) :
  py_strings (map PStr names) = OK names.
Proof.
  induction names as [|n names IH]; [reflexivity|].
  cbn [map py_strings]. rewrite IH. reflexivity.
Qed.

Lemma py_join_names (sep : str) (names : list str) :
  py_join sep (map PStr names) = OK (Py.join sep names).
Proof. unfold py_join. rewrite py_strings_map. reflexivity. Qed.

Lemma is_empty_map {A B : Type} (f : A -> B) (l : list A) :
  is_empty (map f l) = is_empty l.
Proof. destruct l; reflexivity. Qed.

Lemma title_of_fields (fields : list (str * pyval)) (e : TrackEntry) :
  match dict_lookup fields (txt "title") with
  | None => entry_title e = []
  | Some t => t = PStr (entry_title e)
  end ->
  bind (py_get (PDict fields) (txt "title") (PStr [])) py_strip =
  OK (Py.strip (entry_title e)).
Proof.
  unfold py_get. cbn [bind].
  destruct (dict_lookup fields (txt "title")) as [t|]; intros ->; reflexivity.
Qed.

Lemma bind_assoc {A B C : Type} (r : result A) (f : A -> result B)
    (g : B -> result C) :
  bind (bind r f) g = bind r (fun a => bind (f a) g).
Proof. destruct r; reflexivity. Qed.

(** The loop body on a well-formed entry does what the specification's
    classifier does with it. *)
Lemma track_body_spec (v : pyval) (e : TrackEntry) :
  decodes_to v e ->
  track_body v = OK (if spec_discards e then None else Some (spec_track e)).
Proof.
  intros (fields & -> & Ht & Hm & Hf & Hr).
  apply title_of_fields in Ht. apply names_of_role in Hm, Hf, Hr.
  unfold track_body.
  rewrite <- (bind_assoc (py_get (PDict fields) (txt "title") (PStr []))), Ht.
  cbn [bind]. rewrite spec_discards_tests.
  destruct (is_unreleased_track (Py.strip (entry_title e))); [reflexivity|].
  rewrite <- (bind_assoc (py_get (PDict fields) (txt "mainArtists") _)), Hm.
  cbn [bind].
  rewrite <- (bind_assoc (py_get (PDict fields) (txt "featuringArtists") _)), Hf.
  cbn [bind].
  rewrite <- (bind_assoc (py_get (PDict fields) (txt "remixArtists") _)), Hr.
  cbn [bind orb]. rewrite !is_empty_map.
  destruct (is_empty (entry_main e)) eqn:Hmain; [reflexivity|].
  rewrite !py_join_names. cbn [bind].
  unfold spec_track, spec_title, spec_artist.
  rewrite !comma_joined_join, spec_trim_strip.
  destruct (entry_featuring e) as [|f fs];
    destruct (entry_remix e) as [|r rs];
    cbn [is_empty bind]; rewrite ?app_nil_r; reflexivity.
Qed.

Lemma track_loop_spec (values : list pyval) (entries : list TrackEntry) :
  Forall2 decodes_to values entries ->
  forall acc, track_loop values acc = OK (acc ++ spec_classify entries).
Proof.
  induction 1 as [|v e values entries Hv _ IH]; intros acc.
  - cbn. rewrite app_nil_r. reflexivity.
  - cbn [track_loop]. rewrite (track_body_spec v e Hv). cbn [bind].
    unfold spec_classify. cbn [filter].
    destruct (spec_discards e); cbn [negb map].
    + apply IH.
    + rewrite IH. unfold spec_classify. rewrite <- app_assoc. reflexivity.
Qed.

(** ** The locator on an embedded array *)

(** Where the scan starts, for a page that holds the key and an array. *)
Lemma locate_unfold (pre a post : str) :
  let html := pre ++ TRACKLIST_KEY ++ a ++ post in
  let json_start := len pre + len TRACKLIST_KEY in
  json_array_text a ->
  Py.find html ANCHOR 0 = len pre ->
  locate html =
  match scan_loop (a ++ post) json_start
          (Z.min (json_start + SCAN_CEILING) (len html)) scan_init with
  | Some json_end => Some (json_start, json_end)
  | None => None
  end.
Proof.
  intros html json_start [_ [t ->]] Hfind. unfold locate. rewrite Hfind.
  pose proof (len_nonneg pre).
  destruct (Z.eqb_spec (len pre) (-1)); [lia|].
  assert (Hstart : Py.find html (txt "[") (len pre) = json_start).
  { unfold html. rewrite find_from_prefix. cbn [app].
    apply find_bracket_after_key. }
  rewrite Hstart. unfold json_start at 1, html at 1.
  rewrite app_assoc, <- len_app, skipn_len_app. reflexivity.
Qed.

Lemma locate_array (pre a post : str) :
  let html := pre ++ TRACKLIST_KEY ++ a ++ post in
  let json_start := len pre + len TRACKLIST_KEY in
  json_array_text a ->
  Py.find html ANCHOR 0 = len pre ->
  len a <= SCAN_CEILING ->
  locate html = Some (json_start, json_start + len a).
Proof.
  intros html json_start Ha Hfind Hlen. subst html json_start.
  rewrite (locate_unfold pre a post Ha Hfind).
  rewrite (scan_loop_array a post _ _ Ha); [reflexivity|].
  rewrite !len_app. pose proof (len_nonneg post). lia.
Qed.

Lemma slice_array (pre key a post : str) :
  Py.slice (pre ++ key ++ a ++ post) (len pre + len key)
    (len pre + len key + len a) = a.
Proof.
  rewrite app_assoc, <- len_app. apply slice_middle.
Qed.

(** *** The scan ceiling *)

Lemma scan_loop_lower_stop (chars : str) (stop' : Z) :
  forall i stop st json_end,
  scan_loop chars i stop st = Some json_end ->
  stop' < json_end ->
  scan_loop chars i stop' st = None.
Proof.
  induction chars as [|c chars IH]; intros i stop st json_end Hscan Hlt;
    cbn [scan_loop] in *; [reflexivity|].
  destruct (i <? stop); [|discriminate].
  destruct (Z.ltb_spec i stop'); [|reflexivity].
  destruct (scan_step st c) as [st1|].
  - exact (IH (i + 1) stop st1 json_end Hscan Hlt).
  - injection Hscan as <-. lia.
Qed.

Lemma locate_array_too_long (pre a post : str) :
  let html := pre ++ TRACKLIST_KEY ++ a ++ post in
  json_array_text a ->
  Py.find html ANCHOR 0 = len pre ->
  SCAN_CEILING < len a ->
  locate html = None.
Proof.
  intros html Ha Hfind Hlen. subst html.
  rewrite (locate_unfold pre a post Ha Hfind).
  set (json_start := len pre + len TRACKLIST_KEY).
  rewrite (scan_loop_lower_stop (a ++ post) _ json_start (json_start + len a)
             scan_init (json_start + len a)); [reflexivity| |lia].
  apply (scan_loop_array a post _ _ Ha). lia.
Qed.

Lemma escape_repeat_letter (n : nat) :
  flat_map escape_char (repeat "a"%char n) = repeat "a"%char n.
Proof.
  induction n as [|n IH]; [reflexivity|].
  cbn [repeat flat_map]. rewrite IH. reflexivity.
Qed.

Lemma len_repeat (c : ascii) (n : nat) : len (repeat c n) = Z.of_nat n.
Proof. unfold len. rewrite repeat_length. reflexivity. Qed.

Lemma json_text_letters (n : nat) :
  json_text (PList [PDict [(txt "title", PStr (repeat "a"%char n))]]) =
  (txt "[{" ++ dquote :: txt "title" ++ dquote :: ":"%char :: [dquote])
  ++ repeat "a"%char n ++ dquote :: txt "}]".
Proof.
  cbn [json_text map Py.join]. unfold string_text.
  rewrite escape_repeat_letter.
  change (flat_map escape_char (txt "title")) with (txt "title").
  cbn [txt list_ascii_of_string app]. rewrite <- ?app_assoc. reflexivity.
Qed.

Lemma len_long_array : len (json_text (PList long_array)) = SCAN_CEILING + 14.
Proof.
  unfold long_array, long_title. rewrite json_text_letters.
  rewrite !len_app, len_repeat.
  rewrite Z2Nat.id by (unfold SCAN_CEILING; lia).
  change (len (txt "[{")) with 2.
  change (len (dquote :: txt "title" ++ [dquote; ":"%char; dquote])) with 9.
  change (len (dquote :: txt "}]")) with 3. lia.
Qed.

Lemma find_long_page : Py.find long_page ANCHOR 0 = 0.
Proof.
  unfold Py.find. change (0 <? 0) with false. cbv iota.
  pose proof (len_nonneg long_page).
  destruct (Z.ltb_spec (len long_page) 0); [lia|].
  reflexivity.
Qed.

(** * The claims *)

Lemma extract_unfold (json_loads : str -> result pyval) (html : str) :
  extract_tracklist_from_html json_loads html =
  match locate html with
  | Some (json_start, json_end) =>
      try_loads json_loads (Py.slice html json_start json_end)
  | None => OK None
  end.
Proof.
  unfold extract_tracklist_from_html.
  destruct (locate html) as [[s e]|]; reflexivity.
Qed.

Lemma try_loads_value (json_loads : str -> result pyval) (json_str : str)
    (v : pyval) :
  json_loads json_str = OK v -> try_loads json_loads json_str = OK (Some v).
Proof. unfold try_loads. intros ->. reflexivity. Qed.

(** C1 (amended).  For every page in which the first occurrence of the
    anchor is the key followed by the text [a] of a well-formed JSON array
    (the compact text of a list value, or any other JSON text of an array),
    and [a] is at most [SCAN_CEILING] characters long, the locator settles
    on the span of exactly [a]: the slice is [a], and the result is what the
    [try] around the decoder makes of [a], so the value [A] the decoder
    reads in [a] is the value the locator returns. *)
Theorem C1_locate_embedded_array (json_loads : str -> result pyval)
    (pre a post : str) :
  let html := pre ++ TRACKLIST_KEY ++ a ++ post in
  let json_start := len pre + len TRACKLIST_KEY in
  let json_end := json_start + len a in
  json_array_text a ->
  Py.find html ANCHOR 0 = len pre ->
  len a <= SCAN_CEILING ->
  locate html = Some (json_start, json_end) /\
  Py.slice html json_start json_end = a /\
  extract_tracklist_from_html json_loads html = try_loads json_loads a /\
  (forall A, json_loads a = OK A ->
             extract_tracklist_from_html json_loads html = OK (Some A)).
Proof.
  intros html json_start json_end Ha Hfind Hlen.
  pose proof (locate_array pre a post Ha Hfind Hlen) as Hloc.
  pose proof (slice_array pre TRACKLIST_KEY a post) as Hslice.
  assert (Hext : extract_tracklist_from_html json_loads html
                 = try_loads json_loads a).
  { rewrite extract_unfold. fold html in Hloc. rewrite Hloc.
    unfold html. rewrite Hslice. reflexivity. }
  split; [exact Hloc|]. split; [exact Hslice|]. split; [exact Hext|].
  intros A Hround. rewrite Hext. exact (try_loads_value _ _ _ Hround).
Qed.

Lemma C1_locate_embedded_array_witness :
  json_array_text (json_text (PList sample_array)) /\
  Py.find sample_page ANCHOR 0 = len sample_pre /\
  len (json_text (PList sample_array)) <= SCAN_CEILING /\
  locate sample_page = Some (33, 135) /\
  Py.slice sample_page 33 135 = json_text (PList sample_array) /\
  extract_tracklist_from_html (fun _ => OK (PList sample_array)) sample_page
  = OK (Some (PList sample_array)).
Proof.
  pose proof (json_text_array sample_array) as Ha.
  assert (Hfind : Py.find sample_page ANCHOR 0 = len sample_pre)
    by (vm_compute; reflexivity).
  assert (Hlen : len (json_text (PList sample_array)) <= SCAN_CEILING)
    by (vm_compute; discriminate).
  destruct (C1_locate_embedded_array (fun _ => OK (PList sample_array))
              sample_pre (json_text (PList sample_array)) sample_post
              Ha Hfind Hlen)
    as (Hloc & Hslice & _ & Hround).
  split; [exact Ha|]. split; [exact Hfind|]. split; [exact Hlen|].
  split; [exact Hloc|]. split; [exact Hslice|].
  exact (Hround (PList sample_array) eq_refl).
Defined.

(** C1 as stated fails on an array longer than the ceiling: the anchor is
    at the head of [long_page], the array after the key is well formed, and
    the locator finds no span. *)
Lemma C1_long_array_not_located :
  long_page = [] ++ TRACKLIST_KEY ++ json_text (PList long_array) ++ [] /\
  json_array_text (json_text (PList long_array)) /\
  Py.find long_page ANCHOR 0 = len [] /\
  SCAN_CEILING < len (json_text (PList long_array)) /\
  locate long_page = None.
Proof.
  assert (Heq : long_page =
                [] ++ TRACKLIST_KEY ++ json_text (PList long_array) ++ []).
  { unfold long_page. rewrite app_nil_r, app_nil_l. reflexivity. }
  assert (Hlen : SCAN_CEILING < len (json_text (PList long_array))).
  { rewrite len_long_array. lia. }
  pose proof (json_text_array long_array) as Ha.
  split; [exact Heq|]. split; [exact Ha|]. split; [exact find_long_page|].
  split; [exact Hlen|].
  rewrite Heq. apply (locate_array_too_long [] _ [] Ha); [|exact Hlen].
  rewrite <- Heq. exact find_long_page.
Qed.

(** C2.  A string literal, whatever brackets and backslash pairs its body
    holds, never moves the depth counter: after every prefix of the literal
    the depth is the depth before it and the loop has not returned, after
    the whole literal the scanner is back in the state it was in, and the
    loop goes on behind the literal.  The per-character tests come in the
    order of the source: a pending escape first, then the backslash, then
    the quote, then the skip inside a string.  On [live_page], whose array
    holds the title [Song [Live] "Remix"], the locator returns the whole
    array. *)
Theorem C2_string_keeps_depth (body : str) (d : Z) :
  string_body body ->
  let literal := dquote :: body ++ [dquote] in
  (forall k, exists st,
      scan_run (firstn k literal) (mk_scan d false false) = Some st /\
      bracket_count st = d) /\
  scan_run literal (mk_scan d false false) = Some (mk_scan d false false) /\
  (forall rest i stop,
      i + len literal <= stop ->
      scan_loop (literal ++ rest) i stop (mk_scan d false false) =
      scan_loop rest (i + len literal) stop (mk_scan d false false)) /\
  (forall st c,
      escape_next st = true ->
      scan_step st c =
      Continue (mk_scan (bracket_count st) (in_string st) false)) /\
  (forall st,
      escape_next st = false ->
      scan_step st "\"%char =
      Continue (mk_scan (bracket_count st) (in_string st) true)) /\
  (forall st,
      escape_next st = false ->
      scan_step st dquote =
      Continue (mk_scan (bracket_count st) (negb (in_string st)) false)) /\
  (forall st c,
      in_string st = true ->
      exists st', scan_step st c = Continue st' /\
                  bracket_count st' = bracket_count st) /\
  (string_text live_title = dquote :: live_body ++ [dquote] /\
   locate live_page = Some (21, 56) /\
   Py.slice live_page 21 56 = json_text (PList live_array)).
Proof.
  intros Hbody literal.
  assert (Hrun : scan_run literal (mk_scan d false false) =
                 Some (mk_scan d false false))
    by exact (scan_run_literal body d Hbody).
  split; [|split; [exact Hrun|split]].
  - intros [|k]; [exists (mk_scan d false false); split; reflexivity|].
    unfold literal. cbn [firstn scan_run].
    rewrite step_quote by reflexivity. cbn [bracket_count in_string negb].
    destruct (Nat.le_gt_cases k (length body)) as [Hk|Hk].
    + rewrite firstn_app.
      replace (k - length body)%nat with 0%nat by lia.
      cbn [firstn]. rewrite app_nil_r.
      destruct (scan_run_body_prefix body d k Hbody) as [e He].
      exists (mk_scan d true e). split; [exact He | reflexivity].
    + rewrite firstn_all2 by (rewrite length_app; cbn [length]; lia).
      exists (mk_scan d false false). split; [|reflexivity].
      rewrite scan_run_app, (scan_run_body body d Hbody). cbn [scan_run].
      rewrite step_quote by reflexivity. reflexivity.
  - intros rest i stop Hfit. exact (scan_loop_run _ rest i stop _ _ Hrun Hfit).
  - split; [exact step_escaped|]. split; [exact step_backslash|].
    split; [exact step_quote|]. split; [exact step_in_string_depth|].
    vm_compute. repeat split.
Qed.

Lemma live_body_is_body : string_body live_body.
Proof.
  unfold live_body. cbn [txt list_ascii_of_string app].
  repeat first
    [ apply sb_nil
    | apply sb_escape
    | apply sb_char; [discriminate | discriminate | ] ].
Qed.

Lemma C2_string_keeps_depth_witness :
  string_body live_body /\
  scan_run (dquote :: live_body ++ [dquote]) (mk_scan 2 false false) =
  Some (mk_scan 2 false false).
Proof.
  split; [exact live_body_is_body|].
  exact (proj1 (proj2 (C2_string_keeps_depth live_body 2 live_body_is_body))).
Defined.

(** C3 (amended).  When the locator finds the anchor and a span, the
    decoder's answer on the slice decides.  A [JSONDecodeError] is caught
    and the locator returns [None], which is what it returns for every page
    without the anchor: a decode failure is not told from an absent anchor.
    Any other exception of the decoder is not caught: the locator raises
    it, and it raises nothing else. *)
Theorem C3_decode_failure_returns_none (json_loads : str -> result pyval)
    (html : str) (json_start json_end : Z) :
  locate html = Some (json_start, json_end) ->
  let json_str := Py.slice html json_start json_end in
  (json_loads json_str = Raise JSONDecodeError ->
   extract_tracklist_from_html json_loads html = OK None /\
   forall other,
     Py.find other ANCHOR 0 = -1 ->
     extract_tracklist_from_html json_loads other =
     extract_tracklist_from_html json_loads html) /\
  (forall e,
      e <> JSONDecodeError ->
      (extract_tracklist_from_html json_loads html = Raise e <->
       json_loads json_str = Raise e)) /\
  extract_tracklist_from_html json_loads html <> Raise JSONDecodeError.
Proof.
  intros Hloc json_str.
  assert (Habsent : forall other,
             Py.find other ANCHOR 0 = -1 ->
             extract_tracklist_from_html json_loads other = OK None).
  { intros other H. rewrite extract_unfold. unfold locate. rewrite H.
    reflexivity. }
  rewrite extract_unfold, Hloc. fold json_str.
  unfold try_loads. split; [|split].
  - intros ->. split; [reflexivity|]. exact Habsent.
  - intros e He. destruct (json_loads json_str) as [v|e'].
    + split; intros H; discriminate H.
    + destruct e'; split; intros H; congruence.
  - destruct (json_loads json_str) as [v|[]]; discriminate.
Qed.

Lemma C3_decode_failure_returns_none_witness :
  locate bad_page = Some (12, 17) /\
  extract_tracklist_from_html (fun _ => Raise JSONDecodeError) bad_page
  = OK None /\
  extract_tracklist_from_html (fun _ => Raise RecursionError) bad_page
  = Raise RecursionError.
Proof.
  assert (Hloc : locate bad_page = Some (12, 17)) by (vm_compute; reflexivity).
  split; [exact Hloc|]. split.
  - exact (proj1 (proj1 (C3_decode_failure_returns_none
                           (fun _ => Raise JSONDecodeError) bad_page 12 17
                           Hloc) eq_refl)).
  - exact (proj2 (proj1 (proj2 (C3_decode_failure_returns_none
                                  (fun _ => Raise RecursionError) bad_page
                                  12 17 Hloc))
                    RecursionError ltac:(discriminate)) eq_refl).
Defined.

(** C3 as stated fails: on [bad_page] the anchor and a span are found, the
    slice is [[{}x]], and for every decoder that rejects this slice with
    [JSONDecodeError] the outcome is the outcome on the empty page, where
    the anchor is absent. *)
Lemma C3_decode_failure_not_distinct :
  Py.find bad_page ANCHOR 0 = 0 /\
  locate bad_page = Some (12, 17) /\
  Py.slice bad_page 12 17 = txt "[{}x]" /\
  Py.find [] ANCHOR 0 = -1 /\
  (forall json_loads : str -> result pyval,
      json_loads (txt "[{}x]") = Raise JSONDecodeError ->
      extract_tracklist_from_html json_loads bad_page =
      extract_tracklist_from_html json_loads []).
Proof.
  assert (Hloc : locate bad_page = Some (12, 17)) by (vm_compute; reflexivity).
  assert (Hslice : Py.slice bad_page 12 17 = txt "[{}x]")
    by (vm_compute; reflexivity).
  split; [vm_compute; reflexivity|]. split; [exact Hloc|].
  split; [exact Hslice|]. split; [vm_compute; reflexivity|].
  intros json_loads Hrej. rewrite !extract_unfold, Hloc, Hslice.
  unfold try_loads. rewrite Hrej. reflexivity.
Qed.

(** C4.  When the bracket that closes the array (the one the scan reaches
    when it runs to the end of the page) lies more than [SCAN_CEILING]
    characters past the opening bracket, the scan stops at the ceiling and
    the locator finds nothing. *)
Theorem C4_scan_ceiling (json_loads : str -> result pyval) (html : str)
    (json_end : Z) :
  let tracklist_start := Py.find html ANCHOR 0 in
  let json_start := Py.find html (txt "[") tracklist_start in
  scan_loop (skipn (Z.to_nat json_start) html) json_start (len html)
    scan_init = Some json_end ->
  SCAN_CEILING < (json_end - 1) - json_start ->
  scan_loop (skipn (Z.to_nat json_start) html) json_start
    (Z.min (json_start + SCAN_CEILING) (len html)) scan_init = None /\
  locate html = None /\
  extract_tracklist_from_html json_loads html = OK None.
Proof.
  intros tracklist_start json_start Hscan Hfar.
  assert (Hstop : scan_loop (skipn (Z.to_nat json_start) html) json_start
                    (Z.min (json_start + SCAN_CEILING) (len html)) scan_init
                  = None).
  { apply (scan_loop_lower_stop _ _ _ _ _ _ Hscan). lia. }
  assert (Hloc : locate html = None).
  { unfold locate. fold tracklist_start.
    destruct (tracklist_start =? -1); [reflexivity|].
    fold json_start. rewrite Hstop. reflexivity. }
  split; [exact Hstop|]. split; [exact Hloc|].
  rewrite extract_unfold, Hloc. reflexivity.
Qed.

Lemma find_from_start (s sub : str) : Py.find s sub 0 = Py.find_at sub s 0.
Proof. exact (find_from_prefix [] s sub). Qed.

Lemma find_bracket_long_page : Py.find long_page (txt "[") 0 = 12.
Proof.
  rewrite find_from_start. unfold long_page.
  destruct (json_text_array long_array) as [_ [t ->]].
  exact (find_bracket_after_key t 0).
Qed.

Lemma scan_long_page :
  scan_loop (skipn (Z.to_nat 12) long_page) 12 (len long_page) scan_init =
  Some (SCAN_CEILING + 26).
Proof.
  unfold long_page.
  change 12 with (len TRACKLIST_KEY) at 1. rewrite skipn_len_app.
  rewrite <- (app_nil_r (json_text (PList long_array))) at 1.
  rewrite (scan_loop_array _ [] _ _ (json_text_array long_array)).
  - rewrite len_long_array. f_equal; lia.
  - rewrite len_app. change (len TRACKLIST_KEY) with 12. lia.
Qed.

Lemma C4_scan_ceiling_witness :
  scan_loop (skipn (Z.to_nat 12) long_page) 12 (len long_page) scan_init =
  Some (SCAN_CEILING + 26) /\
  SCAN_CEILING < SCAN_CEILING + 26 - 1 - 12 /\
  locate long_page = None.
Proof.
  pose proof (C4_scan_ceiling (fun _ => Raise JSONDecodeError) long_page
                (SCAN_CEILING + 26)) as H.
  cbv zeta in H. rewrite find_long_page, find_bracket_long_page in H.
  assert (Hfar : SCAN_CEILING < SCAN_CEILING + 26 - 1 - 12) by lia.
  split; [exact scan_long_page|]. split; [exact Hfar|].
  exact (proj1 (proj2 (H scan_long_page Hfar))).
Defined.

(** ** The classifier: claims *)

(** Shows that a concrete dict is a concrete entry. *)
Ltac decodes_concrete :=
  eexists; split; [reflexivity|];
  repeat split; unfold role_names; cbn;
  try reflexivity;
  try (eexists; split; [reflexivity|];
       repeat constructor; eexists; split; reflexivity).

Lemma night_value_decodes : decodes_to night_value night_entry.
Proof. decodes_concrete. Qed.

Lemma mixed_array_decodes : Forall2 decodes_to mixed_array mixed_entries.
Proof.
  repeat first [apply Forall2_nil | apply Forall2_cons];
    [exact night_value_decodes | decodes_concrete ..].
Qed.

(** A keyword stands at the head of a text, whatever the case, when the
    text starts with a stretch that is the keyword letter by letter. *)
Lemma reads_keyword_spec (kw s : str) :
  reads_keyword kw s = true <->
  exists w r, s = w ++ r /\ Forall2 (fun c k => same_letter c k = true) w kw.
Proof.
  revert s. induction kw as [|k kw IH]; intros s.
  - split; [intros _; exists [], s; split; [reflexivity | constructor]|].
    intros _. destruct s; reflexivity.
  - destruct s as [|c s]; cbn [reads_keyword].
    + split; [discriminate|]. intros (w & r & Hs & Hw).
      inversion Hw; subst. discriminate Hs.
    + rewrite andb_true_iff, IH. split.
      * intros (Hc & w & r & -> & Hw). exists (c :: w), r.
        split; [reflexivity | constructor; assumption].
      * intros (w & r & Hs & Hw). inversion Hw as [|c' k' w' kw' Hc Hw']; subst.
        cbn [app] in Hs. injection Hs as -> ->. eauto.
Qed.

Lemma holds_keyword_spec (kw s : str) :
  holds_keyword kw s = true <->
  exists p w r,
    s = p ++ w ++ r /\ Forall2 (fun c k => same_letter c k = true) w kw.
Proof.
  induction s as [|c s IH]; cbn [holds_keyword]; rewrite orb_true_iff.
  - rewrite reads_keyword_spec. split.
    + intros [(w & r & Hs & Hw)|H]; [|discriminate H].
      exists [], w, r. split; [exact Hs | exact Hw].
    + intros (p & w & r & Hs & Hw). left. destruct p; [|discriminate Hs].
      exists w, r. split; [exact Hs | exact Hw].
  - rewrite reads_keyword_spec, IH. split.
    + intros [(w & r & Hs & Hw)|(p & w & r & -> & Hw)].
      * exists [], w, r. split; [exact Hs | exact Hw].
      * exists (c :: p), w, r. split; [reflexivity | exact Hw].
    + intros ([|a p] & w & r & Hs & Hw).
      * left. exists w, r. split; [exact Hs | exact Hw].
      * right. cbn [app] in Hs. injection Hs as _ ->.
        exists p, w, r. split; [reflexivity | exact Hw].
Qed.

(** The keywords neither start nor end with white space: trimming the
    title does not change what it holds. *)
Lemma holds_keyword_trim (kw t : str) :
  In kw RELEASE_KEYWORDS ->
  holds_keyword kw (spec_trim t) = holds_keyword kw t.
Proof.
  intros Hin.
  assert (Htext : keyword_text kw)
    by exact (proj1 (Forall_forall _ _) release_keywords_text kw Hin).
  assert (Hstable : trim_stable kw = true).
  { assert (Hall : forallb trim_stable RELEASE_KEYWORDS = true) by reflexivity.
    exact (proj1 (forallb_forall _ _) Hall kw Hin). }
  rewrite !(holds_keyword_lower kw _ Htext), spec_trim_strip.
  exact (keyword_trim kw t Hstable).
Qed.

Lemma spec_discards_iff (e : TrackEntry) :
  spec_discards e = true <->
  spec_trim (entry_title e) = [] \/
  (exists kw p w s,
      In kw RELEASE_KEYWORDS /\
      entry_title e = p ++ w ++ s /\
      Forall2 (fun c k => same_letter c k = true) w kw) \/
  entry_main e = [].
Proof.
  unfold spec_discards. rewrite !orb_true_iff, existsb_exists. split.
  - intros [[H|(kw & Hin & H)]|H].
    + left. destruct (spec_trim (entry_title e)); [reflexivity | discriminate H].
    + right. left. rewrite (holds_keyword_trim kw _ Hin) in H.
      apply holds_keyword_spec in H as (p & w & s & Hs & Hw).
      exists kw, p, w, s. auto.
    + right. right. destruct (entry_main e); [reflexivity | discriminate H].
  - intros [H|[(kw & p & w & s & Hin & Ht & Hw)|H]].
    + left. left. rewrite H. reflexivity.
    + left. right. exists kw. split; [exact Hin|].
      rewrite (holds_keyword_trim kw _ Hin). apply holds_keyword_spec.
      exists p, w, s. auto.
    + right. rewrite H. reflexivity.
Qed.

(** C5.  On decoded entries the loop of [fetch_nts_tracklist] keeps exactly
    the entries the specification's filter keeps and emits them in input
    order, one track per surviving entry, nothing merged.  The filter
    discards an entry exactly when its trimmed title is empty, or some
    stretch of its title is a keyword letter by letter, whatever the case,
    or it has no main contributor.  Trimming takes the white space (codes 9
    to 13, 28 to 32, 133, 160) off both ends and nothing else. *)
Theorem C5_classifier_filters (values : list pyval)
    (entries : list TrackEntry) :
  Forall2 decodes_to values entries ->
  track_loop values [] =
  OK (map spec_track (filter (fun e => negb (spec_discards e)) entries)) /\
  (forall e,
      spec_discards e = true <->
      spec_trim (entry_title e) = [] \/
      (exists kw p w s,
          In kw RELEASE_KEYWORDS /\
          entry_title e = p ++ w ++ s /\
          Forall2 (fun c k => same_letter c k = true) w kw) \/
      entry_main e = []) /\
  (forall l t r,
      forallb is_white l = true -> forallb is_white r = true ->
      no_white_ends t ->
      spec_trim (l ++ t ++ r) = t).
Proof.
  intros H. split; [exact (track_loop_spec values entries H [])|].
  split; [exact spec_discards_iff|].
  exact spec_trim_parts.
Qed.

Lemma C5_classifier_filters_witness :
  Forall2 decodes_to mixed_array mixed_entries /\
  track_loop mixed_array [] =
  OK [ mk_track (txt "Night Drive (E, F Remix) - A, B ft. C, D")
         (txt "Night Drive (E, F Remix)") (txt "A, B ft. C, D");
       mk_track (txt "X - Y") (txt "X") (txt "Y") ].
Proof.
  split; [exact mixed_array_decodes|].
  exact (proj1 (C5_classifier_filters mixed_array mixed_entries
                  mixed_array_decodes)).
Defined.

(** C6.  For a surviving entry the loop body emits the track whose artist
    string is the main names joined with [", "], followed by [" ft. "] and
    the featuring names joined with [", "] when there are any, whose title
    is the trimmed title, followed by [" (<remix names> Remix)"] when there
    are remix names, and whose display line is [title - artist]; the entry
    [Waves] gives [Waves (C Remix) - A ft. B]. *)
Theorem C6_display_line (v : pyval) (e : TrackEntry) :
  decodes_to v e ->
  spec_discards e = false ->
  let artist_str :=
    comma_joined (entry_main e)
    ++ match entry_featuring e with
       | [] => []
       | _ :: _ => txt " ft. " ++ comma_joined (entry_featuring e)
       end in
  let title_str :=
    spec_trim (entry_title e)
    ++ match entry_remix e with
       | [] => []
       | _ :: _ => txt " (" ++ comma_joined (entry_remix e) ++ txt " Remix)"
       end in
  track_body v =
  OK (Some (mk_track (title_str ++ txt " - " ++ artist_str)
              title_str artist_str)) /\
  (forall n, comma_joined [n] = n) /\
  (forall n m rest,
      comma_joined (n :: m :: rest) =
      n ++ txt ", " ++ comma_joined (m :: rest)) /\
  track_loop [waves_value] [] =
  OK [mk_track (txt "Waves (C Remix) - A ft. B") (txt "Waves (C Remix)")
        (txt "A ft. B")].
Proof.
  intros Hv Hkeep artist_str title_str.
  split; [|split; [|split; [|reflexivity]]].
  - rewrite (track_body_spec v e Hv), Hkeep. reflexivity.
  - intros n. apply app_nil_r.
  - intros n m rest. cbn [comma_joined flat_map].
    rewrite <- app_assoc. reflexivity.
Qed.

Lemma C6_display_line_witness :
  decodes_to night_value night_entry /\
  spec_discards night_entry = false /\
  track_body night_value =
  OK (Some (mk_track (txt "Night Drive (E, F Remix) - A, B ft. C, D")
              (txt "Night Drive (E, F Remix)") (txt "A, B ft. C, D"))).
Proof.
  split; [exact night_value_decodes|]. split; [reflexivity|].
  exact (proj1 (C6_display_line night_value night_entry night_value_decodes
                  eq_refl)).
Defined.

Lemma comma_joined_empty (names : list str) :
  comma_joined names = [] <-> names = [] \/ names = [[]].
Proof.
  destruct names as [|n [|m rest]]; cbn [comma_joined flat_map].
  - split; auto.
  - rewrite app_nil_r. split.
    + intros ->. right. reflexivity.
    + intros [H|H]; [discriminate H | injection H as ->; reflexivity].
  - split.
    + intros H. apply app_eq_nil in H as [_ H]. discriminate H.
    + intros [H|H]; discriminate H.
Qed.

(** The artist string is empty for one kind of surviving entry only. *)
Lemma spec_artist_empty (e : TrackEntry) :
  entry_main e <> [] ->
  (spec_artist e = [] <-> entry_main e = [[]] /\ entry_featuring e = []).
Proof.
  intros Hmain. unfold spec_artist. split.
  - intros H. apply app_eq_nil in H as [Hm Hf].
    apply comma_joined_empty in Hm as [Hm|Hm]; [contradiction|].
    split; [exact Hm|]. destruct (entry_featuring e); [reflexivity|].
    discriminate Hf.
  - intros [-> ->]. reflexivity.
Qed.

(** C7 (amended).  The classifier emits one track for each surviving
    entry, in order, and the artist string of that track is empty exactly
    when the entry has the empty name as its only main contributor and no
    featuring contributor: every other track has a non-empty artist
    string, whatever the other entries are. *)
Theorem C7_artist_nonempty (values : list pyval) (entries : list TrackEntry) :
  Forall2 decodes_to values entries ->
  exists emitted,
    track_loop values [] = OK emitted /\
    Forall2 (fun e t =>
               t = spec_track e /\
               (artist t = [] <->
                entry_main e = [[]] /\ entry_featuring e = []))
      (filter (fun e => negb (spec_discards e)) entries) emitted.
Proof.
  intros Hdec. exists (spec_classify entries).
  split; [exact (track_loop_spec values entries Hdec [])|].
  unfold spec_classify.
  assert (Hkept : Forall (fun e => spec_discards e = false)
                    (filter (fun e => negb (spec_discards e)) entries)).
  { apply Forall_forall. intros e He. apply filter_In in He as [_ He].
    apply negb_true_iff in He. exact He. }
  induction Hkept as [|e kept He _ IH]; cbn [map]; constructor; [|exact IH].
  split; [reflexivity|]. cbn [spec_track artist].
  apply spec_artist_empty. unfold spec_discards in He.
  apply orb_false_iff in He as [_ Hmain].
  destruct (entry_main e); [discriminate Hmain | discriminate].
Qed.

Lemma nameless_then_waves_decode :
  Forall2 decodes_to [nameless_value; waves_value]
    [mk_entry (txt "X") [[]] [] []; waves_entry].
Proof. repeat constructor; decodes_concrete. Qed.

Lemma C7_artist_nonempty_witness :
  exists emitted,
    track_loop [nameless_value; waves_value] [] = OK emitted /\
    Forall2 (fun e t =>
               t = spec_track e /\
               (artist t = [] <->
                entry_main e = [[]] /\ entry_featuring e = []))
      [mk_entry (txt "X") [[]] [] []; waves_entry] emitted.
Proof.
  exact (C7_artist_nonempty [nameless_value; waves_value]
           [mk_entry (txt "X") [[]] [] []; waves_entry]
           nameless_then_waves_decode).
Defined.

(** C7 as stated fails: an entry whose only main contributor has the empty
    name passes both checks and is emitted with the empty artist string. *)
Lemma C7_empty_artist_emitted :
  track_loop [nameless_value] [] = OK [mk_track (txt "X - ") (txt "X") []].
Proof. reflexivity. Qed.

(** ** The CSV projection *)

Lemma fold_left_append {A : Type} (f : A -> str) (l : list A) (acc : str) :
  fold_left (fun out x => out ++ f x) l acc = acc ++ flat_map f l.
Proof.
  revert acc. induction l as [|x l IH]; intros acc; cbn [fold_left flat_map].
  - rewrite app_nil_r. reflexivity.
  - rewrite IH, app_assoc. reflexivity.
Qed.

Lemma needs_quotes_false (field : str) :
  (forall c, In c field -> Csv.special c = false) ->
  Csv.needs_quotes field = false.
Proof.
  intros H. unfold Csv.needs_quotes.
  destruct (existsb Csv.special field) eqn:E; [|reflexivity].
  apply existsb_exists in E as (c & Hin & Hc). rewrite (H c Hin) in Hc.
  discriminate Hc.
Qed.

Lemma needs_quotes_true (field : str) (c : ascii) :
  In c field -> Csv.special c = true -> Csv.needs_quotes field = true.
Proof.
  intros Hin Hc. unfold Csv.needs_quotes. apply existsb_exists.
  exists c. split; assumption.
Qed.

Lemma special_spec (c : ascii) :
  Csv.special c = true <->
  c = ","%char \/ c = dquote \/ c = CR \/ c = LF.
Proof.
  unfold Csv.special, Csv.delimiter, Csv.quotechar, Csv.lineterminator.
  cbn [existsb]. rewrite !orb_true_iff, !Ascii.eqb_eq.
  intuition discriminate.
Qed.

Lemma writerow_pair (a b : str) :
  Csv.writerow [a; b] =
  Csv.field_text a ++ ","%char :: Csv.field_text b ++ [CR; LF].
Proof.
  unfold Csv.writerow. cbn [map Py.join app].
  rewrite <- app_assoc. reflexivity.
Qed.

(** The table in the words of the specification and the [csv] writer. *)
Lemma existsb_special (c : ascii) :
  existsb (Ascii.eqb c) CSV_SPECIAL = Csv.special c.
Proof.
  unfold CSV_SPECIAL, Csv.special, Csv.delimiter, Csv.quotechar,
    Csv.lineterminator. cbn [existsb].
  destruct (Ascii.eqb c ","), (Ascii.eqb c dquote), (Ascii.eqb c CR),
    (Ascii.eqb c LF); reflexivity.
Qed.

Lemma must_quote_needs (field : str) :
  must_quote field = Csv.needs_quotes field.
Proof.
  unfold must_quote, Csv.needs_quotes.
  induction field as [|c field IH]; [reflexivity|].
  cbn [existsb]. rewrite existsb_special, IH. reflexivity.
Qed.

Lemma quoted_from_doubles (field : str) :
  quoted_from field =
  flat_map (fun c => if Ascii.eqb c dquote then [dquote; dquote] else [c])
    field ++ [dquote].
Proof.
  induction field as [|c field IH]; [reflexivity|].
  cbn [quoted_from flat_map]. rewrite IH.
  destruct (Ascii.eqb c dquote); reflexivity.
Qed.

Lemma spec_field_text (field : str) : spec_field field = Csv.field_text field.
Proof.
  unfold spec_field, Csv.field_text. rewrite must_quote_needs.
  destruct (Csv.needs_quotes field); [|reflexivity].
  rewrite quoted_from_doubles. reflexivity.
Qed.

Lemma spec_row_writerow (a b : str) : spec_row a b = Csv.writerow [a; b].
Proof.
  rewrite writerow_pair. unfold spec_row. rewrite !spec_field_text.
  reflexivity.
Qed.

(** C8.  [create_csv] writes the header row [Song,Artist] and then one row
    per track, title then artist, in the order of the tracks, each row
    ended by CR LF; a field is written as it is unless it holds a comma, a
    quote, CR or LF, and then it is put between quotes with every quote of
    it written twice; with no track only the header row is written. *)
Theorem C8_csv_table (data : TracklistResult) :
  create_csv data = spec_csv data /\
  spec_csv data =
  txt "Song,Artist" ++ [CR; LF]
  ++ flat_map (fun t => spec_field (title t) ++ ","%char
                        :: spec_field (artist t) ++ [CR; LF])
       (tracks data) /\
  (forall field,
      (forall c, In c field ->
                 c <> ","%char /\ c <> dquote /\ c <> CR /\ c <> LF) ->
      spec_field field = field) /\
  (forall field c,
      In c field ->
      c = ","%char \/ c = dquote \/ c = CR \/ c = LF ->
      spec_field field =
      dquote
      :: flat_map (fun c => if Ascii.eqb c dquote then [dquote; dquote]
                            else [c]) field
      ++ [dquote]) /\
  create_csv quoted_result =
  txt "Song,Artist" ++ [CR; LF]
  ++ dquote :: txt "Say " ++ dquote :: dquote :: txt "Hi" ++ dquote :: dquote
     :: txt ", Bye" ++ dquote :: ","%char :: dquote :: txt "A" ++ LF
     :: txt "B" ++ dquote :: [CR; LF] /\
  (forall name address count,
      create_csv (mk_result name address count []) =
      txt "Song,Artist" ++ [CR; LF]).
Proof.
  split.
  { unfold create_csv, spec_csv. rewrite fold_left_append, spec_row_writerow.
    cbn [app]. f_equal.
    induction (tracks data) as [|t l IH]; [reflexivity|].
    cbn [flat_map]. rewrite IH, spec_row_writerow. reflexivity. }
  split; [reflexivity|].
  split; [|split; [|split; [reflexivity | reflexivity]]].
  - intros field H. rewrite spec_field_text. unfold Csv.field_text.
    rewrite needs_quotes_false; auto.
    intros c Hin. destruct (Csv.special c) eqn:E; [|reflexivity].
    apply special_spec in E. specialize (H c Hin). tauto.
  - intros field c Hin Hc. unfold spec_field.
    rewrite must_quote_needs, (needs_quotes_true field c Hin);
      [|apply special_spec; exact Hc].
    rewrite quoted_from_doubles. reflexivity.
Qed.

(** ** The show name *)


Lemma span_not_slash_inv (s seg rest : str) :
  span_not_slash s = (seg, rest) ->
  s = seg ++ rest /\ ~ In "/"%char seg /\
  (rest = [] \/ exists post, rest = "/"%char :: post).
Proof.
  revert seg rest. induction s as [|c s IH]; intros seg rest H;
    cbn [span_not_slash] in H.
  - injection H as <- <-. auto.
  - destruct (Ascii.eqb_spec c "/") as [->|Hc].
    + injection H as <- <-. split; [reflexivity|]. split; [auto|].
      right. eauto.
    + destruct (span_not_slash s) as [seg' rest'] eqn:E.
      injection H as <- <-. destruct (IH seg' rest' eq_refl) as (-> & Hno & Hr).
      split; [reflexivity|]. split; [|exact Hr].
      intros [Heq|Hin]; [congruence | exact (Hno Hin)].
Qed.


Lemma match_shows_inv (s seg : str) :
  match_shows s = Some seg -> exists post, shows_match s [] seg post.
Proof.
  unfold match_shows. intros H.
  destruct (Py.startswith (txt "/shows/") s) eqn:Hs; [|discriminate H].
  apply startswith_inv in Hs as [t ->].
  change (skipn 7 (txt "/shows/" ++ t)) with t in H.
  destruct (span_not_slash t) as [sg rest] eqn:E.
  destruct (span_not_slash_inv t sg rest E) as (-> & Hno & Hr).
  destruct sg as [|c sg]; [discriminate H|].
  destruct rest as [|r rest]; [discriminate H|]. injection H as <-.
  destruct Hr as [Hr|[post Hr]]; [discriminate Hr|]. injection Hr as -> ->.
  exists post. split; [reflexivity|]. split; [discriminate | exact Hno].
Qed.

Lemma re_search_shows_eq (url : str) :
  re_search_shows url =
  match match_shows url with
  | Some seg => Some seg
  | None =>
      match url with
      | [] => None
      | _ :: rest => re_search_shows rest
      end
  end.
Proof. destruct url; reflexivity. Qed.



Lemma find_at_eq (sub s : str) (i : Z) :
  Py.find_at sub s i =
  if Py.startswith sub s then i
  else match s with
       | [] => -1
       | _ :: s' => Py.find_at sub s' (i + 1)
       end.
Proof. destruct s; reflexivity. Qed.

(** An occurrence of [sub] bounds the index [find] returns. *)
Lemma find_at_le (sub : str) (p t : str) :
  forall i, i <= Py.find_at sub (p ++ sub ++ t) i <= i + len p.
Proof.
  induction p as [|c p IH]; intros i; rewrite find_at_eq.
  - cbn [app]. rewrite startswith_app, len_nil. lia.
  - cbn [app]. rewrite len_cons. pose proof (len_nonneg p).
    destruct (Py.startswith sub (c :: p ++ sub ++ t)); [lia|].
    specialize (IH (i + 1)). lia.
Qed.

(** Without an occurrence of [sub], [find] returns [-1]. *)
Lemma find_at_absent (sub s : str) :
  (forall p t, s <> p ++ sub ++ t) ->
  forall i, Py.find_at sub s i = -1.
Proof.
  induction s as [|c s IH]; intros Hno i; rewrite find_at_eq.
  - destruct (Py.startswith sub []) eqn:E; [|reflexivity].
    apply startswith_inv in E as [t Ht]. destruct (Hno [] t Ht).
  - destruct (Py.startswith sub (c :: s)) eqn:E.
    + apply startswith_inv in E as [t Ht]. destruct (Hno [] t Ht).
    + apply IH. intros p t ->. exact (Hno (c :: p) t eq_refl).
Qed.


Lemma fetch_success_inv (requests_get : str -> result str)
    (json_loads : str -> result pyval) (address : str) (r : TracklistResult) :
  fetch_nts_tracklist requests_get json_loads address = OK (Some r) ->
  r = mk_result (show_name_of address) address
        (Z.of_nat (length (tracks r))) (tracks r).
Proof.
  unfold fetch_nts_tracklist.
  destruct (requests_get address) as [text|]; [|discriminate]. cbn [bind].
  destruct (extract_tracklist_from_html json_loads text) as [[tracklist|]|];
    [|discriminate|discriminate]. cbn [bind].
  destruct (truthy tracklist); [|discriminate]. cbn [negb].
  destruct (py_iter tracklist) as [items|]; [|discriminate]. cbn [bind].
  destruct (track_loop items []) as [formatted|]; [|discriminate]. cbn [bind].
  intros H. injection H as <-. reflexivity.
Qed.








Lemma sample_page_located :
  locate sample_page = Some (33, 135) /\
  Py.slice sample_page 33 135 = json_text (PList sample_array).
Proof. vm_compute. split; reflexivity. Qed.

(** The end-to-end scenario: whatever the address, and for every decoder
    that reads the text of the sample array as the sample array. *)
Lemma sample_fetch (requests_get : str -> result str)
    (json_loads : str -> result pyval) (address : str) :
  requests_get address = OK sample_page ->
  json_loads (json_text (PList sample_array)) = OK (PList sample_array) ->
  fetch_nts_tracklist requests_get json_loads address =
  OK (Some (mk_result (show_name_of address) address 1
              [mk_track (txt "X - Y") (txt "X") (txt "Y")])).
Proof.
  intros Hget Hloads. unfold fetch_nts_tracklist. rewrite Hget. cbn [bind].
  destruct sample_page_located as [Hloc Hslice].
  rewrite extract_unfold, Hloc, Hslice. unfold try_loads. rewrite Hloads.
  reflexivity.
Qed.

Lemma sample_fetch_stub (address : str) :
  fetch_nts_tracklist (fun _ => OK sample_page)
    (fun _ => OK (PList sample_array)) address =
  OK (Some (mk_result (show_name_of address) address 1
              [mk_track (txt "X - Y") (txt "X") (txt "Y")])).
Proof. apply sample_fetch; reflexivity. Qed.


(** What [title_from] writes for a character. *)
Lemma title_from_cons (p : bool) (c : ascii) (s : str) :
  Py.title_from p (c :: s) =
  (if p then [Py.tolower c] else Py.totitle c)
  ++ Py.title_from (Py.iscased c) s.
Proof. reflexivity. Qed.

Lemma totitle_nonempty (c : ascii) : Py.totitle c <> [].
Proof.
  destruct c as [[] [] [] [] [] [] [] []]; vm_compute; discriminate.
Qed.





(** ** Extraction with every entry discarded *)

Lemma spec_classify_all_discarded (entries : list TrackEntry) :
  forallb spec_discards entries = true -> spec_classify entries = [].
Proof.
  unfold spec_classify. induction entries as [|e entries IH]; [reflexivity|].
  cbn [forallb filter]. intros H. apply andb_true_iff in H as [He Hrest].
  rewrite He. cbn [negb]. exact (IH Hrest).
Qed.

(** C10.  When the page yields a non-empty decoded array all of whose
    entries are discarded by the release filter or for want of a main
    contributor, the extraction succeeds with no track and count zero. *)
Theorem C10_all_entries_discarded (requests_get : str -> result str)
    (json_loads : str -> result pyval) (address body : str)
    (values : list pyval) (entries : list TrackEntry) :
  requests_get address = OK body ->
  extract_tracklist_from_html json_loads body = OK (Some (PList values)) ->
  values <> [] ->
  Forall2 decodes_to values entries ->
  forallb spec_discards entries = true ->
  fetch_nts_tracklist requests_get json_loads address =
  OK (Some (mk_result (show_name_of address) address 0 [])).
Proof.
  intros Hget Hextract Hne Hdec Hall. unfold fetch_nts_tracklist.
  rewrite Hget. cbn [bind]. rewrite Hextract. cbn [bind].
  destruct values as [|v values]; [congruence|]. cbn [truthy negb py_iter bind].
  rewrite (track_loop_spec _ _ Hdec []).
  rewrite (spec_classify_all_discarded entries Hall). reflexivity.
Qed.

Lemma discarded_array_decodes :
  Forall2 decodes_to discarded_array discarded_entries.
Proof. repeat constructor; decodes_concrete. Qed.

Lemma C10_all_entries_discarded_witness :
  extract_tracklist_from_html (fun _ => OK (PList discarded_array))
    discarded_page = OK (Some (PList discarded_array)) /\
  forallb spec_discards discarded_entries = true /\
  fetch_nts_tracklist (fun _ => OK discarded_page)
    (fun _ => OK (PList discarded_array)) episode_url =
  OK (Some (mk_result (txt "Floating Points") episode_url 0 [])).
Proof.
  assert (Hextract :
            extract_tracklist_from_html (fun _ => OK (PList discarded_array))
              discarded_page = OK (Some (PList discarded_array)))
    by (vm_compute; reflexivity).
  assert (Hall : forallb spec_discards discarded_entries = true)
    by (vm_compute; reflexivity).
  split; [exact Hextract|]. split; [exact Hall|].
  exact (C10_all_entries_discarded (fun _ => OK discarded_page)
           (fun _ => OK (PList discarded_array)) episode_url discarded_page
           discarded_array discarded_entries eq_refl Hextract
           ltac:(discriminate) discarded_array_decodes Hall).
Defined.

(** ** Further properties of the specification *)

(** X1.  When the anchor does not occur in the page, the locator returns
    [None], whatever the page and the decoder. *)
Theorem X1_anchor_absent (json_loads : str -> result pyval) (html : str) :
  (forall pre post, html <> pre ++ ANCHOR ++ post) ->
  Py.find html ANCHOR 0 = -1 /\
  locate html = None /\
  extract_tracklist_from_html json_loads html = OK None.
Proof.
  intros Hno.
  assert (Hfind : Py.find html ANCHOR 0 = -1).
  { rewrite find_from_start. exact (find_at_absent ANCHOR html Hno 0). }
  assert (Hloc : locate html = None).
  { unfold locate. rewrite Hfind. reflexivity. }
  split; [exact Hfind|]. split; [exact Hloc|].
  rewrite extract_unfold, Hloc. reflexivity.
Qed.

Lemma plain_page_no_anchor :
  forall pre post, plain_page <> pre ++ ANCHOR ++ post.
Proof.
  intros pre post Heq.
  pose proof (find_at_le ANCHOR pre post 0) as H. rewrite <- Heq in H.
  assert (Hfind : Py.find_at ANCHOR plain_page 0 = -1)
    by (vm_compute; reflexivity).
  lia.
Qed.

Lemma X1_anchor_absent_witness :
  locate plain_page = None /\
  extract_tracklist_from_html (fun _ => OK PNone) plain_page = OK None.
Proof.
  exact (proj2 (X1_anchor_absent (fun _ => OK PNone) plain_page
                  plain_page_no_anchor)).
Defined.




(** An array written with white space is an array text all the same, and
    the locator returns its span. *)
Example spaced_array_is_array : json_array_text spaced_array.
Proof.
  assert (Hone : json_value (txt "1"))
    by (apply json_number; split; [discriminate | reflexivity]).
  assert (Htwo : json_value (txt "2"))
    by (apply json_number; split; [discriminate | reflexivity]).
  assert (Hinner : json_value (txt "[1, 2]")).
  { apply (json_array (txt "1, 2")).
    apply (json_elements_more [] (txt "1") [] (txt " 2")
             eq_refl Hone eq_refl).
    exact (json_elements_last (txt " ") (txt "2") [] eq_refl Htwo eq_refl). }
  assert (Hobj : json_value (txt "{" ++ dquote :: txt "a" ++ dquote
                             :: txt " : [1, 2]}")).
  { apply (json_object (dquote :: txt "a" ++ dquote :: txt " : [1, 2]")).
    refine (json_members_last [] (txt "a") (txt " ") (txt " ")
              (txt "[1, 2]") [] eq_refl _ eq_refl eq_refl Hinner eq_refl).
    repeat first [apply sb_nil | apply sb_char; [discriminate|discriminate|]]. }
  split; [|unfold spaced_array; cbn; eauto].
  apply (json_array (txt "{" ++ dquote :: txt "a" ++ dquote
                     :: txt " : [1, 2]} , null ")).
  apply (json_elements_more [] _ (txt " ") (txt " null ") eq_refl Hobj eq_refl).
  exact (json_elements_last (txt " ") (txt "null") (txt " ")
           eq_refl json_null eq_refl).
Qed.

Example spaced_array_located :
  locate (sample_pre ++ TRACKLIST_KEY ++ spaced_array ++ sample_post) =
  Some (33, 33 + len spaced_array).
Proof.
  apply (locate_array sample_pre spaced_array sample_post
           spaced_array_is_array); vm_compute; [reflexivity | discriminate].
Qed.

(** ** The built-ins on examples *)

Example title_of_segment :
  Py.title (Py.replace "-" " " (txt "floating-points")) = txt "Floating Points"
  /\ Py.title (txt "1st-january's o'neil") = txt "1St-January'S O'Neil"
  /\ Py.title (txt "aBC dEF") = txt "Abc Def"
  /\ Py.title
       (map ascii_of_nat [99; 97; 102; 233; 45; 233; 99; 111; 108; 101]%nat)
     = map ascii_of_nat [67; 97; 102; 233; 45; 201; 99; 111; 108; 101]%nat
  /\ Py.title (map ascii_of_nat [223; 97; 32; 97; 223]%nat)
     = map ascii_of_nat [83; 115; 97; 32; 65; 223]%nat.
Proof. repeat split. Qed.

Example find_on_abc :
  Py.find (txt "abc") [] 3 = 3 /\ Py.find (txt "abc") [] 4 = -1 /\
  Py.find (txt "abc") (txt "c") (-1) = 2 /\
  Py.find (txt "abc") (txt "a") (-10) = 0 /\
  Py.find (txt "abc") (txt "x") 0 = -1.
Proof. repeat split. Qed.

Example strip_and_lower :
  Py.strip ("028"%char :: txt " a " ++ ["031"%char]) = txt "a" /\
  Py.strip ("160"%char :: txt "a" ++ ["133"%char]) = txt "a" /\
  Py.lower (Py.strip (txt " TBC ")) = txt "tbc" /\
  Py.lower (map ascii_of_nat [192; 215; 222]%nat) =
  map ascii_of_nat [224; 215; 254]%nat /\
  is_unreleased_track (txt "Track (Forthcoming)") = true /\
  is_unreleased_track (txt "Known Pleasures") = false.
Proof. repeat split. Qed.

Example search_of_addresses :
  re_search_shows episode_url = Some (txt "floating-points") /\
  re_search_shows (txt "https://www.nts.live/shows//shows/x/y")
  = Some (txt "x") /\
  re_search_shows (txt "https://www.nts.live/shows/foo") = None /\
  re_search_shows latest_url = None.
Proof. repeat split. Qed.

Example rows_of_the_writer :
  Csv.writerow [txt "a,b"; txt "c" ++ dquote :: txt "d"] =
  dquote :: txt "a,b" ++ dquote :: txt "," ++ dquote :: txt "c" ++ dquote
    :: dquote :: txt "d" ++ dquote :: [CR; LF] /\
  Csv.writerow [[]] = [dquote; dquote; CR; LF] /\
  Csv.writerow [[]; []] = ","%char :: [CR; LF] /\
  Csv.writerow [txt " a"; txt "b "] = txt " a,b " ++ [CR; LF] /\
  Csv.writerow [] = [CR; LF].
Proof. repeat split. Qed.


(** * Further properties of the code *)

(** ** Trimming *)

Lemma lstrip_head (s : str) :
  match Py.lstrip s with
  | [] => True
  | c :: _ => Py.isspace c = false
  end.
Proof.
  induction s as [|c s IH]; cbn [Py.lstrip]; [exact I|].
  destruct (Py.isspace c) eqn:Hc; [exact IH | exact Hc].
Qed.

Lemma lstrip_fixed (s : str) :
  match s with
  | [] => True
  | c :: _ => Py.isspace c = false
  end ->
  Py.lstrip s = s.
Proof.
  destruct s as [|c s]; [reflexivity|]. cbn [Py.lstrip]. intros ->.
  reflexivity.
Qed.

Lemma lstrip_idempotent (s : str) : Py.lstrip (Py.lstrip s) = Py.lstrip s.
Proof. apply lstrip_fixed, lstrip_head. Qed.

(** The trimmed text starts and ends with a character that is no white
    space. *)
Lemma strip_head (s : str) :
  match Py.strip s with
  | [] => True
  | c :: _ => Py.isspace c = false
  end.
Proof.
  unfold Py.strip. destruct (rstrip_split (Py.lstrip s)) as (w & Hs & _).
  pose proof (lstrip_head s) as Hh. rewrite Hs in Hh.
  destruct (Py.rstrip (Py.lstrip s)); [exact I | exact Hh].
Qed.

Lemma strip_last (s : str) :
  match rev (Py.strip s) with
  | [] => True
  | c :: _ => Py.isspace c = false
  end.
Proof.
  unfold Py.strip, Py.rstrip. rewrite rev_involutive. apply lstrip_head.
Qed.

Lemma strip_idempotent (s : str) : Py.strip (Py.strip s) = Py.strip s.
Proof.
  unfold Py.strip at 1.
  rewrite (lstrip_fixed (Py.strip s) (strip_head s)).
  unfold Py.rstrip. rewrite (lstrip_fixed _ (strip_last s)).
  apply rev_involutive.
Qed.

(** ** The CSV writer loses nothing *)

Lemma read_plain_field (f rest : str) :
  Csv.needs_quotes f = false ->
  match rest with
  | [] => True
  | c :: _ => Csv.special c = true
  end ->
  read_plain (f ++ rest) = (f, rest).
Proof.
  unfold Csv.needs_quotes. intros Hf Hrest.
  induction f as [|c f IH]; cbn [app].
  - destruct rest as [|c rest]; [reflexivity|]. cbn [read_plain].
    rewrite Hrest. reflexivity.
  - cbn [existsb] in Hf. apply orb_false_iff in Hf as [Hc Hf].
    cbn [read_plain]. rewrite Hc, (IH Hf). reflexivity.
Qed.

Lemma read_quoted_field (f rest : str) :
  match rest with
  | [] => True
  | c :: _ => Ascii.eqb c Csv.quotechar = false
  end ->
  read_quoted (Csv.double_quotes f ++ Csv.quotechar :: rest) = Some (f, rest).
Proof.
  intros Hrest. induction f as [|c f IH].
  - cbn [Csv.double_quotes flat_map app read_quoted].
    rewrite Ascii.eqb_refl. destruct rest as [|q rest]; [reflexivity|].
    rewrite Hrest. reflexivity.
  - unfold Csv.double_quotes in *. cbn [flat_map].
    destruct (Ascii.eqb c Csv.quotechar) eqn:Hc.
    + apply Ascii.eqb_eq in Hc as ->. cbn [app read_quoted].
      rewrite Ascii.eqb_refl, IH. reflexivity.
    + cbn [app read_quoted]. rewrite Hc, IH. reflexivity.
Qed.

(** A written field is read back, whatever follows it in the row. *)
Lemma read_field_text (f rest : str) :
  match rest with
  | [] => True
  | c :: _ => Csv.special c = true /\ Ascii.eqb c Csv.quotechar = false
  end ->
  read_field (Csv.field_text f ++ rest) = Some (f, rest).
Proof.
  intros Hrest. unfold Csv.field_text.
  destruct (Csv.needs_quotes f) eqn:Hq.
  - cbn [app read_field]. rewrite Ascii.eqb_refl, <- app_assoc. cbn [app].
    apply read_quoted_field. destruct rest; [exact I | apply Hrest].
  - assert (Hplain : read_plain (f ++ rest) = (f, rest)).
    { apply read_plain_field; [exact Hq|].
      destruct rest; [exact I | apply Hrest]. }
    destruct f as [|c f].
    + cbn [app] in *. destruct rest as [|c rest]; [reflexivity|].
      cbn [read_field]. rewrite (proj2 Hrest), Hplain. reflexivity.
    + cbn [app read_field] in *.
      assert (Hc : Ascii.eqb c Csv.quotechar = false).
      { unfold Csv.needs_quotes in Hq. cbn [existsb] in Hq.
        apply orb_false_iff in Hq as [Hc _]. unfold Csv.special in Hc.
        apply orb_false_iff in Hc as [Hc _].
        apply orb_false_iff in Hc as [_ Hc]. exact Hc. }
      rewrite Hc, Hplain. reflexivity.
Qed.

(** Two rows followed by equal or different texts: equal texts mean equal
    fields and equal remainders. *)
Lemma csv_row_inj (t1 t2 : ClassifiedTrack) (r1 r2 : str) :
  csv_row t1 ++ r1 = csv_row t2 ++ r2 ->
  title t1 = title t2 /\ artist t1 = artist t2 /\ r1 = r2.
Proof.
  unfold csv_row. rewrite !writerow_pair. intros H.
  repeat (rewrite <- app_assoc in H; cbn [app] in H).
  assert (H1 := read_field_text (title t1)
                  (","%char :: Csv.field_text (artist t1) ++ CR :: LF :: r1)
                  (conj eq_refl eq_refl)).
  assert (H2 := read_field_text (title t2)
                  (","%char :: Csv.field_text (artist t2) ++ CR :: LF :: r2)
                  (conj eq_refl eq_refl)).
  rewrite H in H1. rewrite H1 in H2. injection H2 as Ht Hrest.
  assert (H3 := read_field_text (artist t1) (CR :: LF :: r1)
                  (conj eq_refl eq_refl)).
  assert (H4 := read_field_text (artist t2) (CR :: LF :: r2)
                  (conj eq_refl eq_refl)).
  rewrite Hrest in H3. rewrite H3 in H4. injection H4 as Ha Hr.
  auto.
Qed.

Lemma csv_row_nonempty (t : ClassifiedTrack) (r : str) : csv_row t ++ r <> [].
Proof.
  unfold csv_row. rewrite writerow_pair.
  destruct (Csv.field_text (title t)); discriminate.
Qed.

Lemma csv_rows_inj (l1 l2 : list ClassifiedTrack) :
  flat_map csv_row l1 = flat_map csv_row l2 ->
  map (fun t => (title t, artist t)) l1 = map (fun t => (title t, artist t)) l2.
Proof.
  revert l2. induction l1 as [|t1 l1 IH]; intros [|t2 l2]; cbn [flat_map map].
  - reflexivity.
  - intros H. symmetry in H. destruct (csv_row_nonempty _ _ H).
  - intros H. destruct (csv_row_nonempty _ _ H).
  - intros H. apply csv_row_inj in H as (Ht & Ha & Hr).
    rewrite Ht, Ha, (IH l2 Hr). reflexivity.
Qed.

(** ** The span the locator returns *)

(** Where [find] answers, the text is found. *)
Lemma find_at_found (sub : str) (s : str) :
  forall i p,
  Py.find_at sub s i = p -> 0 <= i -> p <> -1 ->
  exists a b, s = a ++ sub ++ b /\ p = i + len a.
Proof.
  induction s as [|c s IH]; intros i p Hp Hi Hne; rewrite find_at_eq in Hp.
  - destruct (Py.startswith sub []) eqn:E; [|congruence].
    apply startswith_inv in E as [b ->]. exists [], b. cbn [app].
    rewrite len_nil. split; [reflexivity | lia].
  - destruct (Py.startswith sub (c :: s)) eqn:E.
    + apply startswith_inv in E as [b ->]. exists [], b. cbn [app].
      rewrite len_nil. split; [reflexivity | lia].
    + destruct (IH (i + 1) p Hp ltac:(lia) Hne) as (a & b & -> & ->).
      exists (c :: a), b. rewrite len_cons. split; [reflexivity | lia].
Qed.

Lemma find_found (html sub : str) (p : Z) :
  Py.find html sub 0 = p -> p <> -1 ->
  exists a b, html = a ++ sub ++ b /\ p = len a.
Proof.
  rewrite find_from_start. intros Hp Hne.
  destruct (find_at_found sub html 0 p Hp ltac:(lia) Hne) as (a & b & H & ->).
  exists a, b. split; [exact H | lia].
Qed.

Lemma step_closed_inv (st : scan_state) (c : ascii) :
  scan_step st c = Closed ->
  c = "]"%char /\ bracket_count st = 1 /\ in_string st = false /\
  escape_next st = false.
Proof.
  unfold scan_step. destruct st as [d s e]. cbn [escape_next in_string
    bracket_count]. destruct e; [discriminate|].
  destruct (Ascii.eqb c "\"); [discriminate|]. cbn [negb andb].
  rewrite andb_true_r. destruct (Ascii.eqb c dquote); [discriminate|].
  destruct s; [discriminate|]. cbn [negb].
  destruct (Ascii.eqb_spec c "]") as [->|Hc];
    [|rewrite andb_false_r; discriminate].
  cbn. rewrite andb_true_r.
  destruct (Z.eqb_spec (d - 1) 0); [|discriminate]. intros _.
  repeat split. lia.
Qed.

(** Where the loop returns: the stretch before the closing bracket did not
    close, and the closing bracket is inside the range. *)
Lemma scan_loop_some (chars : str) :
  forall i stop st json_end,
  scan_loop chars i stop st = Some json_end ->
  exists p rest st',
    chars = p ++ "]"%char :: rest /\
    scan_run p st = Some st' /\ scan_step st' "]"%char = Closed /\
    json_end = i + len p + 1 /\ json_end <= stop.
Proof.
  induction chars as [|c chars IH]; intros i stop st json_end H;
    cbn [scan_loop] in H; [discriminate|].
  destruct (Z.ltb_spec i stop); [|discriminate].
  destruct (scan_step st c) as [st1|] eqn:E.
  - destruct (IH _ _ _ _ H) as (p & rest & st' & -> & Hrun & Hcl & -> & Hle).
    exists (c :: p), rest, st'. cbn [app scan_run]. rewrite E, len_cons.
    repeat split; try assumption; lia.
  - injection H as <-. pose proof (step_closed_inv st c E) as (-> & _).
    exists [], chars, st. rewrite len_nil.
    repeat split; try assumption; lia.
Qed.

(** The parts of a page on which the locator answers. *)
Lemma locate_some_parts (html : str) (json_start json_end : Z) :
  locate html = Some (json_start, json_end) ->
  exists a inner rest st,
    html = a ++ TRACKLIST_KEY ++ (txt "[{" ++ inner) ++ "]"%char :: rest /\
    Py.find html ANCHOR 0 = len a /\
    json_start = len a + len TRACKLIST_KEY /\
    json_end = json_start + len (txt "[{" ++ inner) + 1 /\
    json_end <= json_start + SCAN_CEILING /\
    scan_run (txt "[{" ++ inner) scan_init = Some st /\
    scan_step st "]"%char = Closed.
Proof.
  unfold locate. intros H.
  destruct (Z.eqb_spec (Py.find html ANCHOR 0) (-1)) as [|Hne]; [discriminate|].
  destruct (find_found html ANCHOR _ eq_refl Hne) as (a & b & Hhtml & Hts).
  rewrite Hts in H. unfold ANCHOR in Hhtml. rewrite <- app_assoc in Hhtml.
  assert (Hjs : Py.find html (txt "[") (len a) = len a + len TRACKLIST_KEY).
  { rewrite Hhtml at 1. rewrite find_from_prefix.
    apply find_bracket_after_key. }
  rewrite Hjs in H.
  assert (Hskip : skipn (Z.to_nat (len a + len TRACKLIST_KEY)) html
                  = txt "[{" ++ b).
  { rewrite Hhtml at 1. rewrite app_assoc, <- len_app, skipn_len_app.
    reflexivity. }
  rewrite Hskip in H.
  destruct (scan_loop (txt "[{" ++ b) _ _ scan_init) as [e|] eqn:E;
    [|discriminate].
  injection H as <- <-.
  destruct (scan_loop_some _ _ _ _ _ E)
    as (p & rest & st & Hp & Hrun & Hcl & -> & Hle).
  destruct p as [|c1 [|c2 p]].
  - discriminate Hp.
  - cbn in Hp. discriminate Hp.
  - cbn [txt list_ascii_of_string app] in Hp. injection Hp as <- <- Hb.
    exists a, p, rest, st.
    split; [rewrite Hhtml, Hb; reflexivity|]. split; [exact Hts|].
    split; [reflexivity|]. split; [reflexivity|].
    split; [lia|]. split; [exact Hrun | exact Hcl].
Qed.

(** *** The page behind the span *)

Lemma startswith_app_r (sub s t : str) :
  Py.startswith sub s = true -> Py.startswith sub (s ++ t) = true.
Proof.
  intros H. apply startswith_inv in H as [b ->]. rewrite <- app_assoc.
  apply startswith_app.
Qed.

Lemma startswith_cut (sub s t : str) :
  Py.startswith sub (s ++ t) = true -> len sub <= len s ->
  Py.startswith sub s = true.
Proof.
  revert s. induction sub as [|c sub IH]; intros s H Hlen; [reflexivity|].
  destruct s as [|b s].
  - rewrite len_cons, len_nil in Hlen. pose proof (len_nonneg sub). lia.
  - cbn [app Py.startswith] in *. apply andb_true_iff in H as [Hc Hs].
    rewrite Hc. rewrite !len_cons in Hlen. apply IH; [exact Hs | lia].
Qed.

Lemma find_at_fits (sub s : str) (i : Z) :
  0 <= i -> Py.find_at sub s i <> -1 -> len sub <= len s.
Proof.
  intros Hi Hne.
  destruct (find_at_found sub s i _ eq_refl Hi Hne) as (a & b & -> & _).
  rewrite !len_app. pose proof (len_nonneg a). pose proof (len_nonneg b). lia.
Qed.

(** What [find] finds in a text it finds in every longer text. *)
Lemma find_at_extend (sub x y : str) :
  forall i, 0 <= i -> Py.find_at sub x i <> -1 ->
  Py.find_at sub (x ++ y) i = Py.find_at sub x i.
Proof.
  induction x as [|c x IH]; intros i Hi Hne.
  - rewrite (find_at_eq sub []) in *.
    destruct (Py.startswith sub []) eqn:E; [|congruence].
    rewrite find_at_eq, (startswith_app_r sub [] y E). reflexivity.
  - rewrite (find_at_eq sub (c :: x)) in *. rewrite find_at_eq.
    destruct (Py.startswith sub (c :: x)) eqn:E.
    + rewrite (startswith_app_r sub (c :: x) y E). reflexivity.
    + destruct (Py.startswith sub ((c :: x) ++ y)) eqn:E'.
      * pose proof (find_at_fits sub x (i + 1) ltac:(lia) Hne) as Hfit.
        rewrite (startswith_cut sub (c :: x) y E') in E; [discriminate|].
        rewrite len_cons. lia.
      * cbn [app]. apply IH; [lia | exact Hne].
Qed.

(** The index [find] returns depends on the text up to the end of what it
    found. *)
Lemma find_at_agree (sub a b b' : str) (i : Z) :
  0 <= i ->
  Py.find_at sub (a ++ sub ++ b) i = i + len a ->
  Py.find_at sub (a ++ sub ++ b') i = i + len a.
Proof.
  intros Hi H. pose proof (len_nonneg a).
  pose proof (find_at_le sub a [] i) as Hx. rewrite app_nil_r in Hx.
  assert (Hne : Py.find_at sub (a ++ sub) i <> -1) by lia.
  pose proof (find_at_extend sub (a ++ sub) b i Hi Hne) as H1.
  pose proof (find_at_extend sub (a ++ sub) b' i Hi Hne) as H2.
  rewrite <- app_assoc in H1, H2. congruence.
Qed.

Lemma locate_from_parts (a inner rest : str) (st : scan_state) :
  let html := a ++ TRACKLIST_KEY ++ (txt "[{" ++ inner) ++ "]"%char :: rest in
  let json_start := len a + len TRACKLIST_KEY in
  let json_end := json_start + len (txt "[{" ++ inner) + 1 in
  Py.find html ANCHOR 0 = len a ->
  json_end <= json_start + SCAN_CEILING ->
  scan_run (txt "[{" ++ inner) scan_init = Some st ->
  scan_step st "]"%char = Closed ->
  locate html = Some (json_start, json_end).
Proof.
  intros html json_start json_end Hfind Hle Hrun Hcl. unfold locate.
  rewrite Hfind. pose proof (len_nonneg a).
  destruct (Z.eqb_spec (len a) (-1)); [lia|].
  assert (Hjs : Py.find html (txt "[") (len a) = json_start).
  { unfold html. rewrite find_from_prefix. apply find_bracket_after_key. }
  rewrite Hjs. unfold html at 1, json_start at 1.
  rewrite app_assoc, <- len_app, skipn_len_app.
  assert (Hlen : json_end <= len html).
  { unfold html, json_end, json_start. rewrite !len_app, len_cons.
    pose proof (len_nonneg rest). lia. }
  rewrite (scan_loop_run _ _ _ _ _ _ Hrun) by (fold json_start; lia).
  cbn [scan_loop]. fold json_start.
  destruct (Z.ltb_spec (json_start + len (txt "[{" ++ inner))
              (Z.min (json_start + SCAN_CEILING) (len html))); [|lia].
  rewrite Hcl. reflexivity.
Qed.

Lemma slice_prefix (x r : str) (s e : Z) :
  0 <= s <= e -> e <= len x -> Py.slice (x ++ r) s e = Py.slice x s e.
Proof.
  intros Hs He. unfold Py.slice, len in *.
  rewrite skipn_app, firstn_app, length_skipn.
  replace (Z.to_nat (e - s) - (length x - Z.to_nat s))%nat with 0%nat by lia.
  cbn [firstn]. apply app_nil_r.
Qed.

Lemma parts_assoc (a inner rest : str) :
  a ++ TRACKLIST_KEY ++ (txt "[{" ++ inner) ++ "]"%char :: rest =
  (a ++ TRACKLIST_KEY ++ (txt "[{" ++ inner) ++ txt "]") ++ rest.
Proof.
  rewrite <- !app_assoc. cbn [txt list_ascii_of_string app].
  rewrite <- ?app_assoc. reflexivity.
Qed.

Lemma parts_anchor (a inner rest : str) :
  a ++ TRACKLIST_KEY ++ (txt "[{" ++ inner) ++ "]"%char :: rest =
  a ++ ANCHOR ++ inner ++ "]"%char :: rest.
Proof. unfold ANCHOR. rewrite <- !app_assoc. reflexivity. Qed.

Lemma locate_agree (html html' : str) (json_start json_end : Z) :
  locate html = Some (json_start, json_end) ->
  firstn (Z.to_nat json_end) html' = firstn (Z.to_nat json_end) html ->
  locate html' = Some (json_start, json_end) /\
  Py.slice html' json_start json_end = Py.slice html json_start json_end.
Proof.
  intros H Hpre.
  destruct (locate_some_parts html _ _ H)
    as (a & inner & rest & st & Hhtml & Hts & Hjs & Hje & Hle & Hrun & Hcl).
  set (x := a ++ TRACKLIST_KEY ++ (txt "[{" ++ inner) ++ txt "]").
  assert (Hx : json_end = len x).
  { unfold x. rewrite Hje, Hjs, !len_app. change (len (txt "]")) with 1. lia. }
  assert (Hh : html = x ++ rest) by (rewrite Hhtml; apply parts_assoc).
  assert (Hh' : html' = x ++ skipn (Z.to_nat json_end) html').
  { rewrite <- (firstn_skipn (Z.to_nat json_end) html') at 1.
    rewrite Hpre, Hh, Hx, firstn_len_app. reflexivity. }
  set (rest' := skipn (Z.to_nat json_end) html') in *.
  assert (Hparts : html' =
            a ++ TRACKLIST_KEY ++ (txt "[{" ++ inner) ++ "]"%char :: rest').
  { rewrite Hh'. unfold x. symmetry. apply parts_assoc. }
  assert (Hfind : Py.find html' ANCHOR 0 = len a).
  { rewrite find_from_start in *. rewrite Hparts, parts_anchor.
    rewrite Hhtml, parts_anchor in Hts.
    apply (find_at_agree ANCHOR a _ _ 0 ltac:(lia)) with (1 := Hts). }
  split.
  - rewrite Hparts in Hfind |- *. rewrite Hjs, Hje, Hjs.
    apply (locate_from_parts a inner rest' st Hfind); [lia | exact Hrun | exact Hcl].
  - assert (0 <= json_start <= json_end).
    { pose proof (len_nonneg a). pose proof (len_nonneg TRACKLIST_KEY).
      pose proof (len_nonneg (txt "[{" ++ inner)). lia. }
    rewrite Hh, Hh', !slice_prefix by lia. reflexivity.
Qed.

(** *** A page cut off inside the array *)

Lemma scan_run_prefix (x y : str) (st st' : scan_state) :
  scan_run (x ++ y) st = Some st' -> exists st1, scan_run x st = Some st1.
Proof.
  rewrite scan_run_app. destruct (scan_run x st) as [st1|]; [eauto|discriminate].
Qed.

(** No proper prefix of an array text closes the scan. *)
Lemma array_prefix_open (a : str) (k : nat) :
  json_array_text a -> (k < length a)%nat ->
  exists st, scan_run (firstn k a) scan_init = Some st.
Proof.
  intros Ha Hk. destruct (array_inner a Ha) as (inner & -> & Hin).
  change ("["%char :: inner ++ txt "]") with (("["%char :: inner) ++ txt "]")
    in *.
  rewrite length_app in Hk. cbn [length txt list_ascii_of_string] in Hk.
  rewrite firstn_app.
  replace (k - length ("["%char :: inner))%nat with 0%nat
    by (cbn [length]; lia).
  cbn [firstn]. rewrite app_nil_r.
  apply (scan_run_prefix _ (skipn k ("["%char :: inner)) _
           (mk_scan 1 false false)).
  rewrite firstn_skipn. cbn [scan_run]. unfold scan_init.
  rewrite step_open_square. apply Hin. lia.
Qed.

Lemma locate_truncated (pre a : str) (k : nat) :
  let html := pre ++ TRACKLIST_KEY ++ firstn k a in
  json_array_text a -> (k < length a)%nat ->
  Py.find html ANCHOR 0 = len pre ->
  locate html = None.
Proof.
  intros html Ha Hk Hfind. pose proof (len_nonneg pre).
  destruct (find_found html ANCHOR _ Hfind ltac:(lia)) as (a' & b & Hh & Hl).
  assert (Hcut : firstn k a = txt "[{" ++ b).
  { assert (Hs : skipn (Z.to_nat (len pre)) html = ANCHOR ++ b)
      by (rewrite Hl, Hh; apply skipn_len_app).
    unfold html in Hs. rewrite skipn_len_app in Hs. unfold ANCHOR in Hs.
    rewrite <- app_assoc in Hs. exact (app_inv_head _ _ _ Hs). }
  unfold locate. rewrite Hfind.
  destruct (Z.eqb_spec (len pre) (-1)); [lia|].
  assert (Hjs : Py.find html (txt "[") (len pre) = len pre + len TRACKLIST_KEY).
  { unfold html. rewrite find_from_prefix, Hcut.
    apply find_bracket_after_key. }
  rewrite Hjs. unfold html at 1.
  rewrite app_assoc, <- len_app, skipn_len_app.
  destruct (array_prefix_open a k Ha Hk) as [st Hst].
  rewrite <- (app_nil_r (firstn k a)) at 1.
  rewrite (scan_loop_exhausted _ _ _ _ _ _ Hst); [reflexivity|].
  unfold html. rewrite !len_app. lia.
Qed.

(** ** The loop over the tracklist on arbitrary values *)

(** Steps through a [bind] that returned [OK]. *)
Ltac bind_ok H :=
  match type of H with
  | bind ?r _ = OK _ =>
      let x := fresh "x" in
      let E := fresh "E" in
      destruct r as [x|] eqn:E; cbn [bind] in H; [|discriminate H]
  end.

Lemma is_unreleased_nonempty (t : str) :
  is_unreleased_track t = false -> t <> [].
Proof. destruct t; [discriminate | discriminate]. Qed.

(** What the loop body appends, whatever the entry was. *)
Lemma track_body_some (v : pyval) (t : ClassifiedTrack) :
  track_body v = OK (Some t) ->
  formatted_line t = title t ++ txt " - " ++ artist t /\
  exists c rest, title t = c :: rest /\ Py.isspace c = false.
Proof.
  unfold track_body. intros H. bind_ok H. bind_ok H.
  destruct x as [| | |s| |]; try discriminate E0.
  cbn [py_strip] in E0. injection E0 as <-.
  destruct (is_unreleased_track (Py.strip s)) eqn:Hrel; [discriminate H|].
  apply is_unreleased_nonempty in Hrel. pose proof (strip_head s) as Hhead.
  destruct (Py.strip s) as [|c base]; [congruence|].
  do 6 bind_ok H.
  destruct (is_empty x0); [discriminate H|]. bind_ok H.
  assert (Hdone : forall title_str artist_str,
             (exists rest, title_str = c :: rest) ->
             OK (Some (mk_track (title_str ++ txt " - " ++ artist_str)
                         title_str artist_str)) = OK (Some t) ->
             formatted_line t = title t ++ txt " - " ++ artist t /\
             exists c0 rest, title t = c0 :: rest /\ Py.isspace c0 = false).
  { intros ts ar [rest ->] Heq. injection Heq as <-.
    cbn [formatted_line title artist]. split; [reflexivity|].
    exists c, rest. split; [reflexivity | exact Hhead]. }
  destruct (is_empty x2); [|bind_ok H]; cbn [bind] in H;
    (destruct (is_empty x4); [|bind_ok H]; cbn [bind] in H);
    (eapply Hdone; [|exact H]);
    repeat match goal with
           | E : bind _ _ = OK _ |- _ => bind_ok E; injection E as <-
           end;
    cbn [app]; eauto.
Qed.

Lemma track_loop_inv (values : list pyval) :
  forall acc out,
  track_loop values acc = OK out ->
  exists new,
    out = acc ++ new /\ (length new <= length values)%nat /\
    Forall (fun t => exists v, In v values /\ track_body v = OK (Some t)) new.
Proof.
  induction values as [|v values IH]; intros acc out H; cbn [track_loop] in H.
  - injection H as <-. exists []. rewrite app_nil_r. auto.
  - bind_ok H. destruct x as [t|].
    + destruct (IH _ _ H) as (new & -> & Hlen & Hall).
      exists (t :: new). rewrite <- app_assoc. cbn [app length].
      split; [reflexivity|]. split; [lia|]. constructor.
      * exists v. split; [left; reflexivity | exact E].
      * eapply Forall_impl; [|exact Hall]. cbv beta.
        intros t' (v' & Hin & Hb). exists v'. split; [right; exact Hin | exact Hb].
    + destruct (IH _ _ H) as (new & -> & Hlen & Hall).
      exists new. split; [reflexivity|]. cbn [length]. split; [lia|].
      eapply Forall_impl; [|exact Hall]. cbv beta.
      intros t' (v' & Hin & Hb). exists v'. split; [right; exact Hin | exact Hb].
Qed.

(** The first entry the loop body raises on ends the loop with its
    exception. *)
Lemma track_loop_raise (good : list pyval) (v : pyval) (rest : list pyval)
    (e : exn) :
  Forall (fun g => exists r, track_body g = OK r) good ->
  track_body v = Raise e ->
  forall acc, track_loop (good ++ v :: rest) acc = Raise e.
Proof.
  intros Hgood Hv. induction Hgood as [|g good [r Hr] _ IH]; intros acc.
  - cbn [app track_loop]. rewrite Hv. reflexivity.
  - cbn [app track_loop]. rewrite Hr. cbn [bind]. destruct r; apply IH.
Qed.

(** ** The release filter *)


(** ** The show name *)

Lemma re_search_some_inv (url seg : str) :
  re_search_shows url = Some seg ->
  exists pre post, shows_match url pre seg post.
Proof.
  induction url as [|c url IH]; rewrite re_search_shows_eq;
    destruct (match_shows _) as [sg|] eqn:E; intros H; try discriminate H.
  - injection H as <-. apply match_shows_inv in E as [post Hm]. eauto.
  - injection H as <-. apply match_shows_inv in E as [post Hm]. eauto.
  - destruct (IH H) as (pre & post & -> & Hne & Hno).
    exists (c :: pre), post. split; [reflexivity | auto].
Qed.

Lemma title_char_origin (x : ascii) :
  x = "-"%char \/ x = "/"%char ->
  forall (c : ascii) (p : bool),
  In x (if p then [Py.tolower c] else Py.totitle c) -> c = x.
Proof.
  intros Hx c p.
  destruct Hx as [-> | ->];
    destruct c as [[] [] [] [] [] [] [] []]; destruct p; vm_compute;
    intros H; first [reflexivity | exfalso; intuition discriminate].
Qed.

(** Title-casing brings in no hyphen and no slash. *)
Lemma title_from_keeps (x : ascii) (s : str) :
  x = "-"%char \/ x = "/"%char ->
  forall p, In x (Py.title_from p s) -> In x s.
Proof.
  intros Hx. induction s as [|c s IH]; intros p; [auto|].
  rewrite title_from_cons. intros H. apply in_app_or in H as [H|H].
  - left. exact (title_char_origin x Hx c p H).
  - right. exact (IH _ H).
Qed.

Lemma replace_removes (a b : ascii) (s : str) :
  a <> b -> ~ In a (Py.replace a b s).
Proof.
  intros Hab. induction s as [|c s IH]; [auto|]. cbn [Py.replace map].
  intros [H|H]; [|exact (IH H)].
  destruct (Ascii.eqb_spec c a); congruence.
Qed.

Lemma replace_keeps_out (a b x : ascii) (s : str) :
  x <> b -> In x (Py.replace a b s) -> In x s.
Proof.
  intros Hxb. induction s as [|c s IH]; [auto|]. cbn [Py.replace map].
  intros [H|H]; [|right; exact (IH H)].
  destruct (Ascii.eqb_spec c a); [congruence | left; exact H].
Qed.

Lemma title_from_nonempty (p : bool) (s : str) :
  s <> [] -> Py.title_from p s <> [].
Proof.
  destruct s as [|c s]; [congruence|]. rewrite title_from_cons. intros _ H.
  apply app_eq_nil in H as [H _]. destruct p; [discriminate H|].
  exact (totitle_nonempty c H).
Qed.

Lemma show_name_of_chars (address : str) :
  show_name_of address <> [] /\
  ~ In "-"%char (show_name_of address) /\
  ~ In "/"%char (show_name_of address).
Proof.
  unfold show_name_of. destruct (re_search_shows address) as [seg|] eqn:E.
  - apply re_search_some_inv in E as (pre & post & _ & Hne & Hno).
    unfold Py.title. split; [|split].
    + apply title_from_nonempty. destruct seg; [congruence | discriminate].
    + intros H. apply title_from_keeps in H; [|left; reflexivity].
      exact (replace_removes "-"%char " "%char seg ltac:(discriminate) H).
    + intros H. apply title_from_keeps in H; [|right; reflexivity].
      apply replace_keeps_out in H; [exact (Hno H) | discriminate].
  - split; [discriminate|]. split; cbn; intuition discriminate.
Qed.

(** ** The routes *)

Lemma create_csv_rows (data : TracklistResult) :
  create_csv data =
  Csv.writerow [txt "Song"; txt "Artist"] ++ flat_map csv_row (tracks data).
Proof. unfold create_csv. rewrite fold_left_append. reflexivity. Qed.

Lemma csv_rows_tracks (py_str : pyval -> str) (l : list ClassifiedTrack) :
  forall output,
  csv_rows py_str (map track_value l) output =
  OK (output ++ flat_map csv_row l).
Proof.
  induction l as [|t l IH]; intros output; cbn [map csv_rows flat_map].
  - rewrite app_nil_r. reflexivity.
  - cbn [track_value py_getitem]. cbn. rewrite IH, <- app_assoc. reflexivity.
Qed.

Lemma create_csv_value_result (py_str : pyval -> str) (data : TracklistResult)
    (text_output : str) :
  create_csv_value py_str (result_value data text_output) =
  OK (create_csv data).
Proof.
  unfold create_csv_value, result_value. cbn [py_getitem].
  replace (dict_lookup _ (txt "tracks"))
    with (Some (PList (map track_value (tracks data)))) by reflexivity.
  cbn [bind py_iter]. rewrite csv_rows_tracks, create_csv_rows. reflexivity.
Qed.

Lemma download_result (py_str : pyval -> str) (today : str)
    (data : TracklistResult) (text_output : str) :
  download_csv py_str today (result_value data text_output) =
  OK (CsvFile
        (Py.replace " " "_" (show_name data) ++ txt "_" ++ today ++ txt ".csv")
        (create_csv data)).
Proof.
  unfold download_csv. rewrite create_csv_value_result.
  unfold result_value at 1 2. cbn [truthy negb py_contains_key].
  replace (dict_lookup _ (txt "tracks"))
    with (Some (PList (map track_value (tracks data)))) by reflexivity.
  cbn [bind negb]. unfold result_value, py_get.
  replace (dict_lookup _ (txt "show_name"))
    with (Some (PStr (show_name data))) by reflexivity.
  reflexivity.
Qed.

(** * Further properties: the entries *)

(** X4.  Every span the locator returns starts at the bracket of the first
    anchor, twelve characters past the anchor's start, lies inside the
    page, is at most [SCAN_CEILING] characters long, opens with [[{] and
    ends with the bracket that closes it: before that bracket the scan is
    outside strings at depth one, and it has not returned earlier. *)
Theorem X4_span_shape (html : str) (json_start json_end : Z) :
  locate html = Some (json_start, json_end) ->
  0 <= Py.find html ANCHOR 0 /\
  json_start = Py.find html ANCHOR 0 + 12 /\
  json_start < json_end <= len html /\
  json_end - json_start <= SCAN_CEILING /\
  exists inner st,
    Py.slice html json_start json_end = txt "[{" ++ inner ++ txt "]" /\
    scan_run (txt "[{" ++ inner) scan_init = Some st /\
    bracket_count st = 1 /\ in_string st = false /\ escape_next st = false.
Proof.
  intros H.
  destruct (locate_some_parts html _ _ H)
    as (a & inner & rest & st & Hhtml & Hts & -> & -> & Hle & Hrun & Hcl).
  destruct (step_closed_inv _ _ Hcl) as (_ & Hd & Hs & He).
  pose proof (len_nonneg a). pose proof (len_nonneg (txt "[{" ++ inner)).
  pose proof (len_nonneg rest).
  rewrite Hts. change (len TRACKLIST_KEY) with 12 in *.
  split; [lia|]. split; [reflexivity|]. split.
  { rewrite Hhtml. rewrite !len_app, len_cons.
    change (len TRACKLIST_KEY) with 12. change (len (txt "[{")) with 2.
    pose proof (len_nonneg inner). lia. }
  split; [lia|]. exists inner, st.
  split; [|auto].
  rewrite Hhtml.
  change (a ++ TRACKLIST_KEY ++ (txt "[{" ++ inner) ++ "]"%char :: rest)
    with (a ++ TRACKLIST_KEY ++ (txt "[{" ++ inner) ++ txt "]" ++ rest).
  rewrite (app_assoc (txt "[{" ++ inner) (txt "]") rest).
  change 12 with (len TRACKLIST_KEY).
  replace (len a + len TRACKLIST_KEY + len (txt "[{" ++ inner) + 1)
    with (len a + len TRACKLIST_KEY + len ((txt "[{" ++ inner) ++ txt "]"))
    by (rewrite (len_app (txt "[{" ++ inner)); change (len (txt "]")) with 1;
        lia).
  rewrite slice_array, <- app_assoc. reflexivity.
Qed.

Lemma X4_span_shape_witness :
  locate live_page = Some (21, 56) /\
  21 = Py.find live_page ANCHOR 0 + 12 /\ 56 - 21 <= SCAN_CEILING.
Proof.
  assert (H : locate live_page = Some (21, 56)) by (vm_compute; reflexivity).
  destruct (X4_span_shape live_page 21 56 H) as (_ & Hs & _ & Hc & _).
  split; [exact H|]. split; [exact Hs | exact Hc].
Defined.

(** X5.  What stands behind the closing bracket has no part in the
    answer: a page that agrees with [html] up to [json_end] gets the same
    span, the same slice and, from every decoder, the same result. *)
Theorem X5_rest_of_page_ignored (json_loads : str -> result pyval)
    (html html' : str) (json_start json_end : Z) :
  locate html = Some (json_start, json_end) ->
  firstn (Z.to_nat json_end) html' = firstn (Z.to_nat json_end) html ->
  locate html' = Some (json_start, json_end) /\
  Py.slice html' json_start json_end = Py.slice html json_start json_end /\
  extract_tracklist_from_html json_loads html' =
  extract_tracklist_from_html json_loads html.
Proof.
  intros H Hpre. destruct (locate_agree html html' _ _ H Hpre) as [Hloc Hsl].
  split; [exact Hloc|]. split; [exact Hsl|].
  rewrite !extract_unfold, H, Hloc, Hsl. reflexivity.
Qed.

Lemma X5_rest_of_page_ignored_witness :
  locate sample_page = Some (33, 135) /\
  locate (firstn 135 sample_page ++ txt "]]]}{[ anything") = Some (33, 135).
Proof.
  assert (H : locate sample_page = Some (33, 135)) by (vm_compute; reflexivity).
  split; [exact H|].
  exact (proj1 (X5_rest_of_page_ignored (fun _ => Raise JSONDecodeError)
                  sample_page
                  (firstn 135 sample_page ++ txt "]]]}{[ anything") 33 135
                  H eq_refl)).
Defined.

(** X6.  A page that ends inside the array (the text after the key is a
    proper prefix of a JSON array text) yields nothing: the scan runs out
    of page before the array closes. *)
Theorem X6_truncated_page (json_loads : str -> result pyval)
    (pre a : str) (k : nat) :
  let html := pre ++ TRACKLIST_KEY ++ firstn k a in
  json_array_text a -> (k < length a)%nat ->
  Py.find html ANCHOR 0 = len pre ->
  locate html = None /\ extract_tracklist_from_html json_loads html = OK None.
Proof.
  intros html Ha Hk Hfind.
  assert (H : locate html = None) by exact (locate_truncated pre a k Ha Hk Hfind).
  split; [exact H|]. rewrite extract_unfold, H. reflexivity.
Qed.

Lemma X6_truncated_page_witness :
  (60 < length (json_text (PList sample_array)))%nat /\
  locate (sample_pre ++ TRACKLIST_KEY
          ++ firstn 60 (json_text (PList sample_array))) = None.
Proof.
  assert (Hk : (60 < length (json_text (PList sample_array)))%nat)
    by (vm_compute; lia).
  split; [exact Hk|].
  exact (proj1 (X6_truncated_page (fun _ => Raise JSONDecodeError) sample_pre
                  (json_text (PList sample_array)) 60
                  (json_text_array sample_array) Hk eq_refl)).
Defined.

Lemma fetch_success_loop (requests_get : str -> result str)
    (json_loads : str -> result pyval) (address : str) (r : TracklistResult) :
  fetch_nts_tracklist requests_get json_loads address = OK (Some r) ->
  exists text tracklist items,
    requests_get address = OK text /\
    extract_tracklist_from_html json_loads text = OK (Some tracklist) /\
    truthy tracklist = true /\
    py_iter tracklist = OK items /\
    track_loop items [] = OK (tracks r).
Proof.
  unfold fetch_nts_tracklist. intros H. bind_ok H.
  destruct (extract_tracklist_from_html json_loads x) as [[tracklist|]|]
    eqn:Hx; [|discriminate|discriminate]. cbn [bind] in H.
  destruct (truthy tracklist) eqn:Ht; [|discriminate]. cbn [negb] in H.
  do 2 bind_ok H. injection H as <-. cbn [tracks].
  exists x, tracklist, x0.
  repeat (split; [first [assumption | reflexivity]|]). assumption.
Qed.

(** X7.  Whatever the page and the decoder, the tracks of a successful
    extraction are at most as many as the entries of the decoded array, and
    each has a title that starts with a character that is no white space
    and the display line [title - artist]. *)
Theorem X7_emitted_tracks (requests_get : str -> result str)
    (json_loads : str -> result pyval) (address : str) (r : TracklistResult) :
  fetch_nts_tracklist requests_get json_loads address = OK (Some r) ->
  (exists text tracklist items,
      requests_get address = OK text /\
      extract_tracklist_from_html json_loads text = OK (Some tracklist) /\
      py_iter tracklist = OK items /\
      (length (tracks r) <= length items)%nat) /\
  Forall (fun t =>
            formatted_line t = title t ++ txt " - " ++ artist t /\
            exists c rest, title t = c :: rest /\ Py.isspace c = false)
    (tracks r).
Proof.
  intros H.
  destruct (fetch_success_loop _ _ _ _ H)
    as (text & tracklist & items & Hget & Hext & _ & Hiter & Hloop).
  destruct (track_loop_inv items [] _ Hloop) as (new & Hnew & Hlen & Hall).
  cbn [app] in Hnew. subst new. split.
  - exists text, tracklist, items. auto.
  - eapply Forall_impl; [|exact Hall]. cbv beta.
    intros t (v & _ & Hv). exact (track_body_some v t Hv).
Qed.

Lemma X7_emitted_tracks_witness :
  exists r,
    fetch_nts_tracklist (fun _ => OK sample_page)
      (fun _ => OK (PList sample_array)) episode_url = OK (Some r) /\
    Forall (fun t => formatted_line t = title t ++ txt " - " ++ artist t)
      (tracks r).
Proof.
  eexists. split; [exact (sample_fetch_stub episode_url)|].
  eapply Forall_impl;
    [|exact (proj2 (X7_emitted_tracks _ _ _ _ (sample_fetch_stub episode_url)))].
  cbv beta. intros t [Hline _]. exact Hline.
Defined.

(** X8.  One entry the loop body raises on fails the whole extraction:
    the loop raises the exception of the first such entry, no track is
    returned, and [fetch_nts_tracklist] raises.  An entry that is no dict
    raises [AttributeError]. *)
Theorem X8_malformed_entry_fails (requests_get : str -> result str)
    (json_loads : str -> result pyval) (address text : str)
    (good : list pyval) (v : pyval) (rest : list pyval) (e : exn) :
  requests_get address = OK text ->
  extract_tracklist_from_html json_loads text =
  OK (Some (PList (good ++ v :: rest))) ->
  Forall (fun g => exists r, track_body g = OK r) good ->
  track_body v = Raise e ->
  (forall acc, track_loop (good ++ v :: rest) acc = Raise e) /\
  fetch_nts_tracklist requests_get json_loads address = Raise e /\
  (forall w, (forall fields, w <> PDict fields) ->
             track_body w = Raise AttributeError).
Proof.
  intros Hget Hext Hgood Hv.
  pose proof (track_loop_raise good v rest e Hgood Hv) as Hloop.
  split; [exact Hloop|]. split.
  - unfold fetch_nts_tracklist. rewrite Hget. cbn [bind]. rewrite Hext.
    cbn [bind]. destruct good; cbn [app truthy negb py_iter bind]; rewrite Hloop;
      reflexivity.
  - intros w Hw. destruct w; try reflexivity. destruct (Hw items eq_refl).
Qed.

Lemma X8_malformed_entry_fails_witness :
  track_loop broken_array [] = Raise AttributeError /\
  fetch_nts_tracklist (fun _ => OK sample_page)
    (fun _ => OK (PList broken_array)) episode_url = Raise AttributeError.
Proof.
  assert (Hext : extract_tracklist_from_html
                   (fun _ => OK (PList broken_array)) sample_page
                 = OK (Some (PList broken_array)))
    by (vm_compute; reflexivity).
  destruct (X8_malformed_entry_fails (fun _ => OK sample_page)
              (fun _ => OK (PList broken_array)) episode_url sample_page
              [nth 0 broken_array PNone] (PInt 3) [] AttributeError
              eq_refl Hext
              ltac:(repeat constructor; eexists; reflexivity) eq_refl)
    as (Hloop & Hfetch & _).
  split; [exact (Hloop []) | exact Hfetch].
Defined.


(** X10.  The show name is never empty and holds no hyphen and no slash,
    whatever the address; the stem of the file name made from it holds no
    space and no slash. *)
Theorem X10_show_name_chars (address : str) :
  show_name_of address <> [] /\
  ~ In "-"%char (show_name_of address) /\
  ~ In "/"%char (show_name_of address) /\
  ~ In " "%char (Py.replace " " "_" (show_name_of address)) /\
  ~ In "/"%char (Py.replace " " "_" (show_name_of address)).
Proof.
  destruct (show_name_of_chars address) as (Hne & Hh & Hs).
  split; [exact Hne|]. split; [exact Hh|]. split; [exact Hs|]. split.
  - apply replace_removes. discriminate.
  - intros H. apply replace_keeps_out in H; [exact (Hs H) | discriminate].
Qed.

(** X11.  The CSV loses nothing: two results with the same CSV text have
    the same rows of title and artist, in the same order. *)
Theorem X11_csv_loses_nothing (d1 d2 : TracklistResult) :
  create_csv d1 = create_csv d2 ->
  map (fun t => (title t, artist t)) (tracks d1) =
  map (fun t => (title t, artist t)) (tracks d2).
Proof.
  rewrite !create_csv_rows. intros H. apply app_inv_head in H.
  exact (csv_rows_inj _ _ H).
Qed.

Lemma X11_csv_loses_nothing_witness :
  map (fun t => (title t, artist t))
    [mk_track (txt "a - b") (txt "a,b") (txt "c")] =
  map (fun t => (title t, artist t))
    [mk_track (txt "other line") (txt "a,b") (txt "c")].
Proof.
  exact (X11_csv_loses_nothing
           (mk_result (txt "One") (txt "u") 1
              [mk_track (txt "a - b") (txt "a,b") (txt "c")])
           (mk_result (txt "Two") (txt "v") 1
              [mk_track (txt "other line") (txt "a,b") (txt "c")])
           eq_refl).
Defined.

(** X12.  The route [extract] raises only [AttributeError], and only when
    the body of the request is no dict or its [url] is no string (these
    checks stand before the [try]); otherwise it answers 400, 404 or 500
    with an error, or the result of the extraction: then the text output
    is the one of the result, the count is the number of tracks, and the
    address fetched is the [url] with the white space taken off its ends,
    which holds [nts.live]. *)
Theorem X12_extract_outcomes (requests_get : str -> result str)
    (json_loads : str -> result pyval) (exn_str : exn -> str)
    (request : pyval) :
  match extract requests_get json_loads exn_str request with
  | Raise e =>
      e = AttributeError /\
      ((forall fields, request <> PDict fields) \/
       exists fields v,
         request = PDict fields /\
         dict_lookup fields (txt "url") = Some v /\
         forall u, v <> PStr u)
  | OK (JsonError status _) => status = 400 \/ status = 404 \/ status = 500
  | OK (JsonData data text_output) =>
      text_output = create_text_output data /\
      track_count data = Z.of_nat (length (tracks data)) /\
      (exists before after, url data = before ++ txt "nts.live" ++ after) /\
      fetch_nts_tracklist requests_get json_loads (url data) = OK (Some data) /\
      exists fields u,
        request = PDict fields /\
        dict_lookup fields (txt "url") = Some (PStr u) /\
        url data = spec_trim u
  | OK (CsvFile _ _) => False
  end.
Proof.
  unfold extract.
  destruct request as [| | | |items|fields];
    try (cbn; split; [reflexivity | left; intros ? H; discriminate H]).
  cbn [py_get bind].
  destruct (dict_lookup fields (txt "url")) as [v|] eqn:Hv;
    [|cbn; auto].
  destruct v as [| | |u| |];
    try (cbn; split; [reflexivity|]; right; eexists; eexists;
         split; [reflexivity|]; split; [exact Hv|];
         intros ? H; discriminate H).
  cbn [py_strip bind].
  destruct (is_empty (Py.strip u)); [auto|].
  destruct (Py.contains (txt "nts.live") (Py.strip u)) eqn:Hc; cbn [negb];
    [|auto].
  destruct (fetch_nts_tracklist requests_get json_loads (Py.strip u))
    as [[data|]|e] eqn:Hf.
  - pose proof (fetch_success_inv _ _ _ _ Hf) as Hd.
    assert (Hu : url data = Py.strip u) by (rewrite Hd; reflexivity).
    split; [reflexivity|]. split; [rewrite Hd; reflexivity|].
    rewrite Hu. split; [apply contains_spec; exact Hc|]. split; [exact Hf|].
    exists fields, u. rewrite spec_trim_strip. auto.
  - auto.
  - destruct e; auto.
Qed.

(** X13.  White space around the [url] of the request does not count:
    a request with the trimmed [url] gets the same answer. *)
Theorem X13_extract_trims_url (requests_get : str -> result str)
    (json_loads : str -> result pyval) (exn_str : exn -> str)
    (fields fields' : list (str * pyval)) (u : str) :
  dict_lookup fields (txt "url") = Some (PStr u) ->
  dict_lookup fields' (txt "url") = Some (PStr (Py.strip u)) ->
  extract requests_get json_loads exn_str (PDict fields) =
  extract requests_get json_loads exn_str (PDict fields').
Proof.
  intros H H'. unfold extract. cbn [py_get bind]. rewrite H, H'.
  cbn [py_strip bind]. rewrite strip_idempotent. reflexivity.
Qed.

Lemma X13_extract_trims_url_witness :
  extract (fun _ => OK sample_page) (fun _ => OK (PList sample_array))
    (fun _ => [])
    (PDict [(txt "url", PStr (" "%char :: episode_url ++ [LF]))]) =
  extract (fun _ => OK sample_page) (fun _ => OK (PList sample_array))
    (fun _ => [])
    (PDict [(txt "url", PStr episode_url)]).
Proof.
  exact (X13_extract_trims_url (fun _ => OK sample_page)
           (fun _ => OK (PList sample_array)) (fun _ => [])
           [(txt "url", PStr (" "%char :: episode_url ++ [LF]))]
           [(txt "url", PStr episode_url)]
           (" "%char :: episode_url ++ [LF]) eq_refl eq_refl).
Defined.

(** What [extract] answers with is what the extraction returned. *)
Lemma extract_data_inv (requests_get : str -> result str)
    (json_loads : str -> result pyval) (exn_str : exn -> str)
    (request : pyval) (data : TracklistResult) (text_output : str) :
  extract requests_get json_loads exn_str request =
  OK (JsonData data text_output) ->
  text_output = create_text_output data /\
  exists address,
    fetch_nts_tracklist requests_get json_loads address = OK (Some data).
Proof.
  unfold extract. intros H. do 2 bind_ok H.
  destruct (is_empty x0); [discriminate H|].
  destruct (negb (Py.contains (txt "nts.live") x0)); [discriminate H|].
  destruct (fetch_nts_tracklist requests_get json_loads x0)
    as [[d|]|e] eqn:Hf; [|discriminate H|destruct e; discriminate H].
  injection H as <- <-. eauto.
Qed.

(** X14.  The two routes compose: posting the JSON of what [extract]
    answered to [download_csv] returns the CSV of the extracted tracks,
    under the name made of the show name with spaces replaced, the date and
    [.csv]; the part of the name before the date holds no space and no
    slash. *)
Theorem X14_download_of_extract (requests_get : str -> result str)
    (json_loads : str -> result pyval) (exn_str : exn -> str)
    (py_str : pyval -> str) (today : str) (request : pyval)
    (data : TracklistResult) (text_output : str) :
  extract requests_get json_loads exn_str request =
  OK (JsonData data text_output) ->
  let stem := Py.replace " " "_" (show_name data) in
  download_csv py_str today (result_value data text_output) =
  OK (CsvFile (stem ++ txt "_" ++ today ++ txt ".csv") (create_csv data)) /\
  ~ In " "%char stem /\ ~ In "/"%char stem.
Proof.
  intros H stem. split; [apply download_result|].
  destruct (extract_data_inv _ _ _ _ _ _ H) as [_ [address Hf]].
  apply fetch_success_inv in Hf.
  assert (Hs : show_name data = show_name_of address)
    by (rewrite Hf; reflexivity).
  unfold stem. rewrite Hs.
  destruct (show_name_of_chars address) as (_ & _ & Hsl). split.
  - apply replace_removes. discriminate.
  - intros Hin. apply replace_keeps_out in Hin; [exact (Hsl Hin) | discriminate].
Qed.

Lemma X14_download_of_extract_witness :
  download_csv (fun _ => []) (txt "20240101")
    (result_value
       (mk_result (txt "Floating Points") episode_url 1
          [mk_track (txt "X - Y") (txt "X") (txt "Y")])
       (txt "X - Y")) =
  OK (CsvFile (txt "Floating_Points_20240101.csv")
        (txt "Song,Artist" ++ [CR; LF] ++ txt "X,Y" ++ [CR; LF])).
Proof.
  exact (proj1 (X14_download_of_extract (fun _ => OK sample_page)
                  (fun _ => OK (PList sample_array)) (fun _ => [])
                  (fun _ => []) (txt "20240101")
                  (PDict [(txt "url", PStr episode_url)])
                  (mk_result (txt "Floating Points") episode_url 1
                     [mk_track (txt "X - Y") (txt "X") (txt "Y")])
                  (txt "X - Y") eq_refl)).
Defined.

(** The loop of [create_csv] writes one row for each track of the request,
    in order, after what is written already. *)
Lemma csv_rows_spec (py_str : pyval -> str) (items : list pyval) :
  forall output content,
  csv_rows py_str items output = OK content ->
  exists rows,
    Forall2 (fun item row =>
               exists t a,
                 py_getitem item (txt "title") = OK t /\
                 py_getitem item (txt "artist") = OK a /\
                 row = Csv.writerow [csv_field py_str t; csv_field py_str a])
      items rows /\
    content = output ++ concat rows.
Proof.
  induction items as [|track items IH]; intros output content H;
    cbn [csv_rows] in H.
  - injection H as <-. exists []. split; [constructor|].
    cbn [concat]. rewrite app_nil_r. reflexivity.
  - do 2 bind_ok H. destruct (IH _ _ H) as (rows & Hrows & ->).
    exists (Csv.writerow [csv_field py_str x; csv_field py_str x0] :: rows).
    split; [constructor; eauto|].
    cbn [concat]. rewrite <- app_assoc. reflexivity.
Qed.

(** X15.  The answers of the route [download_csv].  It answers 400 exactly
    when the body of the request is falsy or does not hold [tracks]; it
    answers with a file only for a dict with the key [tracks]: the file
    holds the header row and then one row for each track, in order, and
    its name is the show name of the request with spaces replaced
    ([nts_show] without one), the date and [.csv].  It never answers with
    JSON data, and what it raises is no [RequestException]. *)
Theorem X15_download_outcomes (py_str : pyval -> str) (today : str)
    (request : pyval) :
  match download_csv py_str today request with
  | OK (JsonError status _) =>
      status = 400 /\
      (truthy request = false \/
       py_contains_key request (txt "tracks") = OK false)
  | OK (CsvFile download_name content) =>
      exists fields tr items sn rows,
        request = PDict fields /\
        dict_lookup fields (txt "tracks") = Some tr /\
        py_iter tr = OK items /\
        py_get request (txt "show_name") (PStr (txt "nts_show")) =
        OK (PStr sn) /\
        download_name =
        Py.replace " " "_" sn ++ txt "_" ++ today ++ txt ".csv" /\
        Forall2 (fun item row =>
                   exists t a,
                     py_getitem item (txt "title") = OK t /\
                     py_getitem item (txt "artist") = OK a /\
                     row = Csv.writerow
                             [csv_field py_str t; csv_field py_str a])
          items rows /\
        content = Csv.writerow [txt "Song"; txt "Artist"] ++ concat rows
  | OK (JsonData _ _) => False
  | Raise e =>
      e <> RequestException /\
      truthy request = true /\
      py_contains_key request (txt "tracks") <> OK false
  end.
Proof.
  unfold download_csv.
  destruct (truthy request) eqn:Ht; cbn [negb bind];
    [|split; [reflexivity | left; reflexivity]].
  destruct request as [|b|z|s|items|fields];
    try discriminate Ht; cbn [py_contains_key bind];
    try (split; [discriminate|]; split; [reflexivity | discriminate]).
  - destruct (Py.contains (txt "tracks") s) eqn:Hc; cbn [negb];
      [|split; [reflexivity | right; reflexivity]].
    cbn. split; [discriminate|]. split; [reflexivity | discriminate].
  - destruct (existsb _ items) eqn:Hc; cbn [negb];
      [|split; [reflexivity | right; reflexivity]].
    cbn. split; [discriminate|]. split; [reflexivity | discriminate].
  - destruct (dict_lookup fields (txt "tracks")) as [tr|] eqn:Htr;
      cbn [negb]; [|split; [reflexivity | right; reflexivity]].
    unfold create_csv_value. cbn [py_getitem]. rewrite Htr. cbn [bind].
    destruct (py_iter tr) as [items|e] eqn:Hit; cbn [bind];
      [|destruct tr; try discriminate Hit; injection Hit as <-;
        (split; [discriminate|]; split; [reflexivity | discriminate])].
    destruct (csv_rows py_str items _) as [content|e] eqn:Hrows; cbn [bind].
    + cbn [py_get].
      destruct (csv_rows_spec _ _ _ _ Hrows) as (rows & Hall & ->).
      destruct (dict_lookup fields (txt "show_name")) as [sn|] eqn:Hsn;
        cbn [bind].
      * destruct sn as [| | |sn| |]; cbn [py_replace bind];
          try (split; [discriminate|]; split; [reflexivity | discriminate]).
        exists fields, tr, items, sn, rows.
        rewrite app_nil_l. auto 10.
      * cbn [py_replace bind].
        exists fields, tr, items, (txt "nts_show"), rows.
        rewrite app_nil_l. auto 10.
    + split; [|split; [reflexivity | discriminate]].
      clear - Hrows. revert Hrows.
      generalize ([] ++ Csv.writerow [txt "Song"; txt "Artist"]).
      induction items as [|track items IH]; intros output H;
        cbn [csv_rows] in H; [discriminate H|].
      destruct (py_getitem track (txt "title")) as [t|e1] eqn:E1;
        cbn [bind] in H.
      * destruct (py_getitem track (txt "artist")) as [a|e2] eqn:E2;
          cbn [bind] in H; [exact (IH _ H)|].
        injection H as <-. destruct track; cbn in E2; try congruence.
        destruct (dict_lookup _ _); congruence.
      * injection H as <-. destruct track; cbn in E1; try congruence.
        destruct (dict_lookup _ _); congruence.
Qed.

(** ** The lines of the text output *)

Lemma split_on_plain (sep : ascii) (x : str) :
  ~ In sep x -> split_on sep x = [x].
Proof.
  induction x as [|c x IH]; intros H; cbn [split_on]; [reflexivity|].
  destruct (Ascii.eqb_spec c sep) as [->|_]; [destruct H; left; reflexivity|].
  rewrite IH; [reflexivity|]. intros Hin. apply H. right. exact Hin.
Qed.

Lemma split_on_line (sep : ascii) (x rest : str) :
  ~ In sep x -> split_on sep (x ++ sep :: rest) = x :: split_on sep rest.
Proof.
  induction x as [|c x IH]; intros H; cbn [app split_on].
  - rewrite Ascii.eqb_refl. reflexivity.
  - destruct (Ascii.eqb_spec c sep) as [->|_];
      [destruct H; left; reflexivity|].
    rewrite IH; [reflexivity|]. intros Hin. apply H. right. exact Hin.
Qed.

Lemma split_on_join (sep : ascii) (items : list str) :
  items <> [] -> Forall (fun x => ~ In sep x) items ->
  split_on sep (Py.join [sep] items) = items.
Proof.
  induction items as [|x items IH]; intros Hne Hall; [contradiction|].
  inversion Hall as [|? ? Hx Hrest]; subst.
  destruct items as [|y items].
  - cbn [Py.join]. apply split_on_plain. exact Hx.
  - change (Py.join [sep] (x :: y :: items))
      with (x ++ sep :: Py.join [sep] (y :: items)).
    rewrite split_on_line by exact Hx.
    rewrite IH; [reflexivity | discriminate | exact Hrest].
Qed.

Lemma fold_left_snoc {A : Type} (f : A -> str) (l : list A) :
  forall acc,
  fold_left (fun lines x => lines ++ [f x]) l acc = acc ++ map f l.
Proof.
  induction l as [|x l IH]; intros acc; cbn [fold_left map].
  - rewrite app_nil_r. reflexivity.
  - rewrite IH, <- app_assoc. reflexivity.
Qed.

(** X16.  The text output can be read back line by line: when there is a
    track and no display line holds a line feed, splitting the text at the
    line feeds gives the display lines of the tracks, in order. *)
Theorem X16_text_lines (data : TracklistResult) :
  tracks data <> [] ->
  Forall (fun t => ~ In LF (formatted_line t)) (tracks data) ->
  split_on LF (create_text_output data) = map formatted_line (tracks data).
Proof.
  intros Hne Hall. unfold create_text_output.
  rewrite fold_left_snoc. cbn [app].
  apply split_on_join.
  - destruct (tracks data); [contradiction | discriminate].
  - apply Forall_map. exact Hall.
Qed.

Lemma X16_text_lines_witness :
  split_on LF (txt "X - Y" ++ LF :: txt "Waves - A") =
  [txt "X - Y"; txt "Waves - A"].
Proof.
  exact (X16_text_lines
           (mk_result (txt "Floating Points") episode_url 2
              [mk_track (txt "X - Y") (txt "X") (txt "Y");
               mk_track (txt "Waves - A") (txt "Waves") (txt "A")])
           ltac:(discriminate)
           ltac:(repeat constructor; cbn; intuition discriminate)).
Defined.
